(** * hoox data store: a shallow embedding of [data_store.js]

    The development models the [DataStore] class of [src/data_store.js]:
    the change comparator, the value registry, the selector engine and the
    listener registry, and proves the properties the specification states
    about them.

    Modelling conventions.
    - JavaScript values are the JSON-like values plus [undefined] and
      opaque functions.  Numbers are the integer-valued ones.  A plain
      object is the list of its own enumerable properties in enumeration
      order (the order of [for ... in], [Object.keys] and
      [JSON.stringify]).  A plain object inherits the members of
      [Object.prototype]: reading a key it does not own finds them, and
      an own property named [hasOwnProperty] shadows the builtin method.
      [JSON.stringify] is modelled on values that carry no [toJSON]
      method ([json_plain]).
    - [this.store], [this.listeners] and [this.selectors] are finite maps
      keyed by strings (the name [__proto__] is not used as a key).
    - Listener objects are shared between the arrays of the store and
      the caller that holds the handle, and [remove()] writes their
      [_removed] flag: they live in a heap and the arrays hold
      references.
    - An [onChange] callback records that it was called and may call
      [remove()] on handles; a selector transformer is a pure function of
      the dependency values.
    - Exceptions are explicit outcomes; [console.log] is not modelled. *)

From Stdlib Require Import ZArith DecimalString.
From stdpp Require Import base option list strings gmap.

Set Warnings "-register-all".

(** ** JavaScript values *)

Inductive Value : Type :=
| VUndefined
| VNull
| VBool (b : bool)
| VNumber (z : Z)
| VString (s : string)
| VArray (elems : list Value)
| VObject (props : list (string * Value))
| VFunction (id : nat).

Inductive JsType := TUndefined | TObject | TBoolean | TNumber | TString | TFunction.

#[global] Instance JsType_eq_dec : EqDecision JsType.
Proof. solve_decision. Defined.

Definition typeof (v : Value) : JsType :=
  match v with
  | VUndefined => TUndefined
  | VNull => TObject
  | VBool _ => TBoolean
  | VNumber _ => TNumber
  | VString _ => TString
  | VArray _ => TObject
  | VObject _ => TObject
  | VFunction _ => TFunction
  end.

(** Own enumerable properties; only plain objects are ever asked. *)
Definition own_props (v : Value) : list (string * Value) :=
  match v with
  | VObject kvs => kvs
  | _ => []
  end.

Definition Object_keys (v : Value) : list string := (own_props v).*1.

Fixpoint assoc_find {A} (key : string) (kvs : list (string * A)) : option A :=
  match kvs with
  | [] => None
  | (k, x) :: rest => if String.eqb k key then Some x else assoc_find key rest
  end.

(** The function-valued members of [Object.prototype]. *)
Definition Object_prototype_methods : list string :=
  [ "constructor"; "hasOwnProperty"; "isPrototypeOf"; "propertyIsEnumerable";
    "toLocaleString"; "toString"; "valueOf";
    "__defineGetter__"; "__defineSetter__"; "__lookupGetter__"; "__lookupSetter__" ].

(** A builtin function.  The store observes of a function value only that
    it is one. *)
Definition builtin : Value := VFunction 0.

(** [Object.prototype[key]]: its methods, and the accessor [__proto__],
    which on a plain object answers [Object.prototype] itself, an object
    without enumerable properties. *)
Definition Object_prototype_get (key : string) : Value :=
  if bool_decide (key ∈ Object_prototype_methods) then builtin
  else if String.eqb key "__proto__" then VObject []
  else VUndefined.

(** [o[key]] on a plain object: the own property, else the inherited one. *)
Definition get_prop (o : Value) (key : string) : Value :=
  match assoc_find key (own_props o) with
  | Some v => v
  | None => Object_prototype_get key
  end.

(** ** [JSON.stringify] *)

Definition dquote : Ascii.ascii := Ascii.ascii_of_nat 34.
Definition backslash : Ascii.ascii := Ascii.ascii_of_nat 92.

Definition hex_digit (n : nat) : Ascii.ascii :=
  if Nat.ltb n 10 then Ascii.ascii_of_nat (48 + n) else Ascii.ascii_of_nat (87 + n).

Definition escape_char (c : Ascii.ascii) : string :=
  let n := Ascii.nat_of_ascii c in
  if Nat.eqb n 34 then String backslash (String dquote EmptyString)
  else if Nat.eqb n 92 then String backslash (String backslash EmptyString)
  else if Nat.eqb n 8 then String backslash "b"
  else if Nat.eqb n 9 then String backslash "t"
  else if Nat.eqb n 10 then String backslash "n"
  else if Nat.eqb n 12 then String backslash "f"
  else if Nat.eqb n 13 then String backslash "r"
  else if Nat.ltb n 32 then
    String backslash
      ("u00" +:+ String (hex_digit (n / 16)) (String (hex_digit (n mod 16)) EmptyString))
  else String c EmptyString.

Fixpoint escape (s : string) : string :=
  match s with
  | EmptyString => EmptyString
  | String c rest => escape_char c +:+ escape rest
  end.

Definition quote (s : string) : string :=
  String dquote (escape s +:+ String dquote EmptyString).

Definition string_of_Z (z : Z) : string := NilZero.string_of_int (Z.to_int z).

Fixpoint join_comma (parts : list string) : string :=
  match parts with
  | [] => ""
  | [p] => p
  | p :: rest => p +:+ "," +:+ join_comma rest
  end.

(** [None] stands for the result [undefined]. *)
Fixpoint JSON_stringify (v : Value) : option string :=
  match v with
  | VUndefined => None
  | VFunction _ => None
  | VNull => Some "null"
  | VBool b => Some (if b then "true" else "false")
  | VNumber z => Some (string_of_Z z)
  | VString s => Some (quote s)
  | VArray elems =>
      let fix items (l : list Value) : list string :=
        match l with
        | [] => []
        | x :: rest => default "null" (JSON_stringify x) :: items rest
        end in
      Some ("[" +:+ join_comma (items elems) +:+ "]")
  | VObject props =>
      let fix members (l : list (string * Value)) : list string :=
        match l with
        | [] => []
        | (k, x) :: rest =>
            match JSON_stringify x with
            | Some sx => (quote k +:+ ":" +:+ sx) :: members rest
            | None => members rest
            end
        end in
      Some ("{" +:+ join_comma (members props) +:+ "}")
  end.

(** ** Exceptions *)

(** [TypeError] is both the explicit [throw new TypeError(...)] of
    [defineSelector] and the engine's error on reading a property of
    [undefined] or calling a non-function; the two [Error]s thrown by
    [get] and [getSelector] are told apart by their message.
    [UserFunctionCalled f] is no exception of the code: it marks the
    point where the code calls the function value [f] that the caller
    has put in the place of a builtin method.  What that function does is
    the caller's, and the model stops there. *)
Inductive Exn :=
| TypeError
| NotInitializedError (name : string)
| UndefinedSelectorError (name : string)
| UserFunctionCalled (id : nat).

Inductive Outcome (A : Type) :=
| Ret (a : A)
| Throw (e : Exn).
Arguments Ret {A} a.
Arguments Throw {A} e.

(** ** The change comparator, [_compareValuesDiff] *)

(** [o.hasOwnProperty(key)] on a plain object.  The method is looked up on
    [o] itself: an own property of that name is called in place of the
    builtin, and calling a value that is no function is a [TypeError]. *)
Definition hasOwnProperty (o : Value) (key : string) : Outcome bool :=
  match assoc_find "hasOwnProperty" (own_props o) with
  | None => Ret (bool_decide (is_Some (assoc_find key (own_props o))))
  | Some (VFunction f) => Throw (UserFunctionCalled f)
  | Some _ => Throw TypeError
  end.

Definition notFunction (o : Value) : bool :=
  negb (bool_decide (typeof o = TFunction)).

Definition bothValueNotFunction (a b : Value) : bool :=
  notFunction a && notFunction b.

Definition isObject (obj : Value) : bool :=
  match obj with
  | VObject _ => true
  | _ => false
  end.

Definition nonOnbjectValueEquals (a b : Value) : bool :=
  bool_decide (JSON_stringify a = JSON_stringify b).

(** The [for (let key in a)] loop: its body returns on the first own key. *)
Fixpoint for_in_keys (keys : list string) (a b : Value) : Outcome bool :=
  match keys with
  | [] => Ret false
  | key :: rest =>
      match hasOwnProperty a key with
      | Throw e => Throw e
      | Ret true =>
          let valueA := get_prop a key in
          let valueB := get_prop b key in
          if bothValueNotFunction valueA valueB
             && (negb (isObject valueA) && negb (isObject valueB))
          then Ret (negb (nonOnbjectValueEquals valueA valueB))
          else Ret true
      | Ret false => for_in_keys rest a b
      end
  end.

Definition isShallowDiff (a b : Value) : Outcome bool :=
  if negb (Nat.eqb (length (Object_keys a)) (length (Object_keys b))) then Ret true
  else for_in_keys (Object_keys a) a b.

Record Strategy := {
  compareCase : Value → Value → bool;
  compareStrategy : Value → Value → Outcome bool
}.

Definition compareStrategies : list Strategy :=
  [ {| compareCase := λ a b, isObject a && isObject b;
       compareStrategy := λ a b, isShallowDiff a b |};
    {| compareCase := λ a b, negb (bool_decide (typeof a = typeof b));
       compareStrategy := λ _ _, Ret true |};
    {| compareCase := λ a b,
         bool_decide (typeof a = TFunction) && bool_decide (typeof b = TFunction);
       compareStrategy := λ _ _, Ret true |};
    {| compareCase := λ _ _, true;
       compareStrategy := λ a b,
         Ret (negb (bool_decide (JSON_stringify a = JSON_stringify b))) |} ].

(** [compareStrategies.some(...)] keeps the strategy of the first matching
    case; calling the initial [null] handler would be a [TypeError]. *)
Definition _compareValuesDiff (a b : Value) : Outcome bool :=
  match List.find (λ st, compareCase st a b) compareStrategies with
  | Some st => compareStrategy st a b
  | None => Throw TypeError
  end.

(** ** The store *)

Definition SELECTOR_PREFIX : string := "selector::".

(** [s.indexOf(pat)] *)
Definition indexOf (s pat : string) : Z :=
  match String.index 0 pat s with
  | Some n => Z.of_nat n
  | None => (-1)%Z
  end.

(** The test and rewrite shared by [initDataStore], [defineSelector] and
    [addSelectorListener]:
    [if (selectorName.indexOf(SELECTOR_PREFIX) !== 0) selectorName = ...]. *)
Definition qualify (selectorName : string) : string :=
  if negb (Z.eqb (indexOf selectorName SELECTOR_PREFIX) 0)
  then SELECTOR_PREFIX +:+ selectorName
  else selectorName.

(** An [onChange] callback: when called it calls [remove()] on these
    listener objects, in this order. *)
Record Callback := { calls_remove : list nat }.

(** The variables a [remove] closure captures. *)
Inductive Target :=
| DataTarget (targetName : string)
| SelectorTarget (selectorName : string).

Record Listener := {
  onChange : Callback;
  _removed : bool;
  target : Target
}.

Record StoreItem := {
  _data : Value;
  _selectors : list string
}.

Record Selector := {
  _transformer : list Value → Value;
  _deps : list string;
  _listeners : list nat
}.

(** [heap] holds the listener objects; a reference is an index into it. *)
Record DataStore := {
  store : gmap string StoreItem;
  listeners : gmap string (list nat);
  selectors : gmap string Selector;
  heap : list Listener
}.

Definition constructor : DataStore :=
  {| store := ∅; listeners := ∅; selectors := ∅; heap := [] |}.

(** A call of the [onChange] of listener object [h]. *)
Inductive Event :=
| Call (h : nat) (args : list Value).

(** ** State, trace and exception monad *)

Definition M (A : Type) : Type := DataStore → Outcome A * DataStore * list Event.

Definition ret {A} (a : A) : M A := λ s, (Ret a, s, []).

Definition throw {A} (e : Exn) : M A := λ s, (Throw e, s, []).

Definition bind {A B} (m : M A) (f : A → M B) : M B := λ s,
  match m s with
  | (Ret a, s1, t1) =>
      match f a s1 with
      | (o, s2, t2) => (o, s2, t1 ++ t2)
      end
  | (Throw e, s1, t1) => (Throw e, s1, t1)
  end.

Notation "'let!' x ':=' m 'in' k" := (bind m (λ x, k))
  (at level 10, x name, m at level 100, k at level 200).

Definition get_state : M DataStore := λ s, (Ret s, s, []).
Definition put_state (s' : DataStore) : M unit := λ _, (Ret tt, s', []).
Definition emit (e : Event) : M unit := λ s, (Ret tt, s, [e]).
Definition lift {A} (o : Outcome A) : M A := λ s, (o, s, []).

Definition outcome_of {A} (r : Outcome A * DataStore * list Event) : Outcome A := r.1.1.
Definition state_of {A} (r : Outcome A * DataStore * list Event) : DataStore := r.1.2.
Definition trace_of {A} (r : Outcome A * DataStore * list Event) : list Event := r.2.

(** [array.forEach(f)] *)
Fixpoint forEach {A} (l : list A) (f : A → M unit) : M unit :=
  match l with
  | [] => ret tt
  | x :: rest => let! _ := f x in forEach rest f
  end.

(** [array.map(f)] *)
Fixpoint Array_map {A B} (l : list A) (f : A → M B) : M (list B) :=
  match l with
  | [] => ret []
  | x :: rest => let! y := f x in let! ys := Array_map rest f in ret (y :: ys)
  end.

(** Reading a property of [undefined] is a [TypeError]. *)
Definition defined {A} (o : option A) : M A :=
  match o with
  | Some a => ret a
  | None => throw TypeError
  end.

Definition read_store (name : string) : M StoreItem :=
  let! s := get_state in defined (store s !! name).

Definition read_listeners (name : string) : M (list nat) :=
  let! s := get_state in defined (listeners s !! name).

Definition read_selector (name : string) : M Selector :=
  let! s := get_state in defined (selectors s !! name).

Definition deref (h : nat) : M Listener :=
  let! s := get_state in defined (heap s !! h).

Definition write_store (name : string) (item : StoreItem) : M unit :=
  let! s := get_state in
  put_state {| store := <[name := item]> (store s); listeners := listeners s;
               selectors := selectors s; heap := heap s |}.

Definition write_listeners (name : string) (ls : list nat) : M unit :=
  let! s := get_state in
  put_state {| store := store s; listeners := <[name := ls]> (listeners s);
               selectors := selectors s; heap := heap s |}.

Definition write_selector (name : string) (sel : Selector) : M unit :=
  let! s := get_state in
  put_state {| store := store s; listeners := listeners s;
               selectors := <[name := sel]> (selectors s); heap := heap s |}.

Definition write_heap (h : nat) (l : Listener) : M unit :=
  let! s := get_state in
  put_state {| store := store s; listeners := listeners s;
               selectors := selectors s; heap := <[h := l]> (heap s) |}.

(** A new listener object; its reference is the next free index. *)
Definition alloc (l : Listener) : M nat :=
  let! s := get_state in
  let! _ := put_state {| store := store s; listeners := listeners s;
                         selectors := selectors s; heap := heap s ++ [l] |} in
  ret (length (heap s)).

(** ** Operations of [DataStore] *)

Definition _initDataStoreItem (name : string) (value : Value) : M unit :=
  let! s := get_state in
  if negb (bool_decide (is_Some (store s !! name))) then
    let! _ := write_store name {| _data := value; _selectors := [] |} in
    write_listeners name []
  else ret tt.

(** [() => {}] *)
Definition placeholder_transformer : list Value → Value := λ _, VUndefined.

(** The entry [initDataStore] writes for each name of its selector list. *)
Definition placeholder : Selector :=
  {| _transformer := placeholder_transformer; _deps := []; _listeners := [] |}.

Definition initDataStore (data : list (string * Value)) (selectors : list string) : M unit :=
  let! _ := forEach data (λ entry, _initDataStoreItem entry.1 entry.2) in
  forEach selectors (λ selectorName,
    let selectorName := qualify selectorName in
    write_selector selectorName placeholder).

Definition getSelector (name : string) : M Value :=
  let! s := get_state in
  match selectors s !! name with
  | None => throw (UndefinedSelectorError name)
  | Some sel =>
      let! depData := Array_map (_deps sel) (λ dep,
                        let! item := read_store dep in ret (_data item)) in
      ret (_transformer sel depData)
  end.

Definition get (name : string) : M Value :=
  if Z.eqb (indexOf name SELECTOR_PREFIX) 0 then getSelector name
  else
    let! s := get_state in
    match store s !! name with
    | None => throw (NotInitializedError name)
    | Some item => ret (_data item)
    end.

(** [list.filter(({_removed}) => !_removed)] *)
Fixpoint filter_not_removed (ls : list nat) : M (list nat) :=
  match ls with
  | [] => ret []
  | h :: rest =>
      let! l := deref h in
      let! rest' := filter_not_removed rest in
      ret (if negb (_removed l) then h :: rest' else rest')
  end.

(** [handle.remove()], for the listener object [h]. *)
Definition remove (h : nat) : M unit :=
  let! l := deref h in
  let! _ := write_heap h {| onChange := onChange l; _removed := true; target := target l |} in
  match target l with
  | DataTarget targetName =>
      let! ls := read_listeners targetName in
      let! ls' := filter_not_removed ls in
      write_listeners targetName ls'
  | SelectorTarget selectorName =>
      let! sel := read_selector selectorName in
      let! ls' := filter_not_removed (_listeners sel) in
      let! sel := read_selector selectorName in
      write_selector selectorName
        {| _transformer := _transformer sel; _deps := _deps sel; _listeners := ls' |}
  end.

(** Calling the [onChange] of listener object [h] with [args]. *)
Definition invoke (h : nat) (cb : Callback) (args : list Value) : M unit :=
  let! _ := emit (Call h args) in
  forEach (calls_remove cb) remove.

(** [this.listeners[name].forEach(({ onChange }) => onChange(data, prevData))] *)
Definition notify_data (ls : list nat) (data prevData : Value) : M unit :=
  forEach ls (λ h, let! l := deref h in invoke h (onChange l) [data; prevData]).

(** [selectorListeners.forEach(({ onChange }) =>
      onChange(this.getSelector(selectorName)))] *)
Definition notify_selector (selectorName : string) (ls : list nat) : M unit :=
  forEach ls (λ h,
    let! l := deref h in
    let! v := getSelector selectorName in
    invoke h (onChange l) [v]).

(** What [update] returns: nothing when the value is unchanged, [this]
    otherwise. *)
Inductive UpdateResult := ReturnsUndefined | ReturnsThis.

Definition update (name : string) (data : Value) : M UpdateResult :=
  let! _ := _initDataStoreItem name VUndefined in
  let! item := read_store name in
  let prevData := _data item in
  let depSelectors := _selectors item in
  let! diff := lift (_compareValuesDiff data prevData) in
  if negb diff then ret ReturnsUndefined
  else
    let! _ := write_store name {| _data := data; _selectors := _selectors item |} in
    let! ls := read_listeners name in
    let! _ := notify_data ls data prevData in
    let! _ := forEach depSelectors (λ selectorName,
                let! sel := read_selector selectorName in
                notify_selector selectorName (_listeners sel)) in
    ret ReturnsThis.

(** The [depNames] argument: one name, or an array of names. *)
Inductive DepNames :=
| OneName (dep : string)
| NameArray (deps : list string).

(** [if (!Array.isArray(depNames)) depNames = [depNames]] *)
Definition as_array (depNames : DepNames) : list string :=
  match depNames with
  | NameArray deps => deps
  | OneName dep => [dep]
  end.

(** The body of [depNames.forEach((dep) => ...)]. *)
Definition register_dependent (selectorName dep : string) : M unit :=
  let! storeItem := read_store dep in
  if bool_decide (selectorName ∉ _selectors storeItem) then
    write_store dep {| _data := _data storeItem;
                       _selectors := _selectors storeItem ++ [selectorName] |}
  else ret tt.

Definition defineSelector (selectorName : Value) (depNames : DepNames)
    (transformer : list Value → Value) : M unit :=
  match selectorName with
  | VString selectorName =>
      let selectorName := qualify selectorName in
      let depNames := as_array depNames in
      let! _ := forEach depNames (register_dependent selectorName) in
      write_selector selectorName
        {| _transformer := transformer; _deps := depNames; _listeners := [] |}
  | _ => throw TypeError
  end.

Definition addSelectorListener (selectorName : string) (onChange : Callback)
    (executeImmediately : bool) : M nat :=
  let selectorName := qualify selectorName in
  let! listener := alloc {| onChange := onChange; _removed := false;
                            target := SelectorTarget selectorName |} in
  let! sel := read_selector selectorName in
  let! _ := write_selector selectorName
              {| _transformer := _transformer sel; _deps := _deps sel;
                 _listeners := _listeners sel ++ [listener] |} in
  let! _ := (if executeImmediately then
               let! v := getSelector selectorName in invoke listener onChange [v]
             else ret tt) in
  ret listener.

Definition addDataListener (targetName : string) (onChange : Callback)
    (executeImmediately : bool) : M nat :=
  let! _ := _initDataStoreItem targetName VUndefined in
  let! listener := alloc {| onChange := onChange; _removed := false;
                            target := DataTarget targetName |} in
  let! ls := read_listeners targetName in
  let! _ := write_listeners targetName (ls ++ [listener]) in
  let! _ := (if executeImmediately then
               let! item := read_store targetName in invoke listener onChange [_data item]
             else ret tt) in
  ret listener.

(** ** Sequences of calls on the public surface *)

Inductive Command :=
| CInitDataStore (data : list (string * Value)) (selectors : list string)
| CUpdate (name : string) (data : Value)
| CGet (name : string)
| CGetSelector (name : string)
| CDefineSelector (selectorName : Value) (depNames : DepNames)
    (transformer : list Value → Value)
| CAddSelectorListener (selectorName : string) (onChange : Callback)
    (executeImmediately : bool)
| CAddDataListener (targetName : string) (onChange : Callback)
    (executeImmediately : bool)
| CRemove (h : nat).

Definition discard {A} (m : M A) : M unit := let! _ := m in ret tt.

Definition exec (c : Command) : M unit :=
  match c with
  | CInitDataStore data selectors => initDataStore data selectors
  | CUpdate name data => discard (update name data)
  | CGet name => discard (get name)
  | CGetSelector name => discard (getSelector name)
  | CDefineSelector n d t => defineSelector n d t
  | CAddSelectorListener n cb e => discard (addSelectorListener n cb e)
  | CAddDataListener n cb e => discard (addDataListener n cb e)
  | CRemove h => remove h
  end.

(** The caller goes on after an exception: each call starts from the
    state the previous one left, whether it returned or threw. *)
Fixpoint run (cs : list Command) (s : DataStore) : DataStore * list Event :=
  match cs with
  | [] => (s, [])
  | c :: rest =>
      match exec c s with
      | (_, s1, t1) =>
          match run rest s1 with
          | (s2, t2) => (s2, t1 ++ t2)
          end
      end
  end.

(** ** Binding store names to the state of a component

    [bindState] and [bindStateHook] share their mount and unmount
    functions.  The component and React are outside the store: the
    callback that hands the new value to [component.setState] or to the
    hook's state setter makes no call on the store, so it is an observer,
    and each of its calls shows in the trace with the value it was
    given. *)

(** The value of a mapping entry: one target name, or an array of them. *)
Inductive TargetNames :=
| OneTarget (targetName : string)
| TargetArray (targetNames : list string).

(** [if (!Array.isArray(targetNames)) targetNames = [targetNames]] *)
Definition targets_as_array (targetNames : TargetNames) : list string :=
  match targetNames with
  | TargetArray targetNames => targetNames
  | OneTarget targetName => [targetName]
  end.

(** [accum[key] = v]: an existing property keeps its place. *)
Fixpoint set_prop (accum : list (string * Value)) (key : string) (v : Value)
    : list (string * Value) :=
  match accum with
  | [] => [(key, v)]
  | (k, x) :: rest =>
      if String.eqb k key then (k, v) :: rest else (k, x) :: set_prop rest key v
  end.

(** The callback [(data) => { ... component.setState(state) }]. *)
Definition setState_callback : Callback := {| calls_remove := [] |}.

(** An object of the local [listeners] array: the [dataStoreName] its
    closures capture and its [listener] field, [null] until mounted. *)
Record Mount := {
  dataStoreName : string;
  listener : option nat
}.

(** [targetNames.forEach((targetName) => { accum[targetName] = this.get(dataStoreName) })] *)
Fixpoint assign_targets (targetNames : list string) (dataStoreName : string)
    (accum : list (string * Value)) : M (list (string * Value)) :=
  match targetNames with
  | [] => ret accum
  | targetName :: rest =>
      let! v := get dataStoreName in
      assign_targets rest dataStoreName (set_prop accum targetName v)
  end.

(** [Object.entries(mapping).reduce(...)], with the accumulated state and
    the [listeners] array built so far. *)
Fixpoint bindState_reduce (entries : list (string * TargetNames))
    (accum : list (string * Value)) (listeners : list Mount)
    : M (list (string * Value) * list Mount) :=
  match entries with
  | [] => ret (accum, listeners)
  | entry :: rest =>
      let! accum := assign_targets (targets_as_array entry.2) entry.1 accum in
      bindState_reduce rest accum
        (listeners ++ [{| dataStoreName := entry.1; listener := None |}])
  end.

(** [bindState(component, mapping)]: the [state] it returns and the
    [listeners] its [didMount] and [willUnmount] work on. *)
Definition bindState (mapping : list (string * TargetNames))
    : M (list (string * Value) * list Mount) :=
  bindState_reduce mapping [] [].

(** The call inside [onMount()], whose result is assigned to
    [this.listener]. *)
Definition onMount (m : Mount) : M nat :=
  if Z.eqb (indexOf (dataStoreName m) SELECTOR_PREFIX) 0
  then addSelectorListener (dataStoreName m) setState_callback true
  else addDataListener (dataStoreName m) setState_callback true.

(** [listeners.forEach((listener) => listener.onMount())].  The objects
    are state of their own, kept when a later [onMount] throws: the
    result pairs them with the outcome on the store. *)
Fixpoint didMount (ms : list Mount) (s : DataStore)
    : list Mount * (Outcome unit * DataStore * list Event) :=
  match ms with
  | [] => ([], (Ret tt, s, []))
  | m :: rest =>
      match onMount m s with
      | (Ret h, s1, t1) =>
          match didMount rest s1 with
          | (rest', (o, s2, t2)) =>
              ({| dataStoreName := dataStoreName m; listener := Some h |} :: rest',
               (o, s2, t1 ++ t2))
          end
      | (Throw e, s1, t1) => (m :: rest, (Throw e, s1, t1))
      end
  end.

(** [onUnmount()]: [if (this.listener) this.listener.remove()] *)
Definition onUnmount (m : Mount) : M unit :=
  match listener m with
  | Some h => remove h
  | None => ret tt
  end.

(** [listeners.forEach((listener) => listener.onUnmount())] *)
Definition willUnmount (ms : list Mount) : M unit := forEach ms onUnmount.

(** ** States and values used in the examples *)

(** A callback that only observes. *)
Definition observer : Callback := {| calls_remove := [] |}.

(** [(x) => x * 2] *)
Definition double : list Value → Value := λ args,
  match args with
  | VNumber x :: _ => VNumber (2 * x)
  | _ => VUndefined
  end.

(** [x = 1], the selector [double] over [x] with one listener, and two
    listeners on [x]. *)
Definition store_double : DataStore :=
  (run [ CInitDataStore [("x", VNumber 1)] [];
         CDefineSelector (VString "double") (NameArray ["x"]) double;
         CAddSelectorListener "double" observer false;
         CAddDataListener "x" observer false;
         CAddDataListener "x" observer false ] constructor).1.

Definition obj_a1_b2 : Value := VObject [("a", VNumber 1); ("b", VNumber 2)].
Definition obj_a1_b3 : Value := VObject [("a", VNumber 1); ("b", VNumber 3)].
Definition obj_b3_a1 : Value := VObject [("b", VNumber 3); ("a", VNumber 1)].
Definition obj_a2_b3 : Value := VObject [("a", VNumber 2); ("b", VNumber 3)].
Definition obj_a2_b4 : Value := VObject [("a", VNumber 2); ("b", VNumber 4)].

(** [x = {a: 1, b: 2}] with one listener. *)
Definition store_object : DataStore :=
  (run [ CInitDataStore [("x", obj_a1_b2)] [];
         CAddDataListener "x" observer false ] constructor).1.

(** [x = 1] with two listeners; the callback of the first removes the
    second. *)
Definition store_removing : DataStore :=
  (run [ CInitDataStore [("x", VNumber 1)] [];
         CAddDataListener "x" {| calls_remove := [1] |} false;
         CAddDataListener "x" observer false ] constructor).1.

(** [a = 1] and nothing else. *)
Definition store_a : DataStore :=
  (run [ CInitDataStore [("a", VNumber 1)] [] ] constructor).1.

(** ** Definitions used in the statements *)

(** What [_initDataStoreItem] makes of a state. *)
Definition init_item (name : string) (value : Value) (s : DataStore) : DataStore :=
  if bool_decide (is_Some (store s !! name)) then s
  else {| store := <[name := {| _data := value; _selectors := [] |}]> (store s);
          listeners := <[name := []]> (listeners s);
          selectors := selectors s; heap := heap s |}.

Definition put_selector (name : string) (sel : Selector) (s : DataStore) : DataStore :=
  {| store := store s; listeners := listeners s;
     selectors := <[name := sel]> (selectors s); heap := heap s |}.

(** The dependency values [getSelector] reads, when every one is there. *)
Fixpoint dep_data (s : DataStore) (deps : list string) : option (list Value) :=
  match deps with
  | [] => Some []
  | dep :: rest =>
      match store s !! dep with
      | None => None
      | Some item =>
          match dep_data s rest with
          | None => None
          | Some depData => Some (_data item :: depData)
          end
      end
  end.

(** What [getSelector] returns or throws in a state. *)
Definition selector_result (s : DataStore) (name : string) : Outcome Value :=
  match selectors s !! name with
  | None => Throw (UndefinedSelectorError name)
  | Some sel =>
      match dep_data s (_deps sel) with
      | Some depData => Ret (_transformer sel depData)
      | None => Throw TypeError
      end
  end.

(** ** Well-formed stores and how operations change a store *)

(** Listener object [h] is in one of the arrays of the store. *)
Definition registered (s : DataStore) (h : nat) : Prop :=
  (∃ n ls, listeners s !! n = Some ls ∧ h ∈ ls)
  ∨ (∃ n sel, selectors s !! n = Some sel ∧ h ∈ _listeners sel).

(** Listener object [h] exists and is in no array of the store. *)
Definition dropped (h : nat) (s : DataStore) : Prop :=
  h < length (heap s) ∧ ¬ registered s h.

(** What holds of every store the operations can build: a value has its
    listener array; an array holds each listener object once, and only
    objects whose [remove] closure points back at that array. *)
Record wf (s : DataStore) : Prop := {
  wf_listeners : ∀ n, is_Some (store s !! n) → is_Some (listeners s !! n);
  wf_data_target : ∀ n ls h, listeners s !! n = Some ls → h ∈ ls →
    ∃ l, heap s !! h = Some l ∧ target l = DataTarget n;
  wf_selector_target : ∀ n sel h, selectors s !! n = Some sel → h ∈ _listeners sel →
    ∃ l, heap s !! h = Some l ∧ target l = SelectorTarget n;
  wf_data_NoDup : ∀ n ls, listeners s !! n = Some ls → NoDup ls;
  wf_selector_NoDup : ∀ n sel, selectors s !! n = Some sel → NoDup (_listeners sel);
  wf_dependents_NoDup : ∀ n item, store s !! n = Some item → NoDup (_selectors item)
}.

(** The mutations [remove] makes. *)
Inductive rstep (s : DataStore) : DataStore → Prop :=
| rstep_flag h l l' :
    heap s !! h = Some l → target l' = target l →
    rstep s {| store := store s; listeners := listeners s;
               selectors := selectors s; heap := <[h := l']> (heap s) |}
| rstep_filter_data n ls ls' :
    listeners s !! n = Some ls → sublist ls' ls →
    rstep s {| store := store s; listeners := <[n := ls']> (listeners s);
               selectors := selectors s; heap := heap s |}
| rstep_filter_selector n sel ls' :
    selectors s !! n = Some sel → sublist ls' (_listeners sel) →
    rstep s (put_selector n {| _transformer := _transformer sel; _deps := _deps sel;
                               _listeners := ls' |} s).

(** The mutations the operations make. *)
Inductive step (s : DataStore) : DataStore → Prop :=
| step_remove s' : rstep s s' → step s s'
| step_init name value : step s (init_item name value s)
| step_item name item item' :
    store s !! name = Some item → (NoDup (_selectors item) → NoDup (_selectors item')) →
    step s {| store := <[name := item']> (store s); listeners := listeners s;
              selectors := selectors s; heap := heap s |}
| step_selector name sel :
    _listeners sel = [] → step s (put_selector name sel s)
| step_alloc l :
    step s {| store := store s; listeners := listeners s;
              selectors := selectors s; heap := heap s ++ [l] |}
| step_subscribe_data n ls l :
    listeners s !! n = Some ls → target l = DataTarget n →
    step s {| store := store s;
              listeners := <[n := ls ++ [length (heap s)]]> (listeners s);
              selectors := selectors s; heap := heap s ++ [l] |}
| step_subscribe_selector n sel l :
    selectors s !! n = Some sel → target l = SelectorTarget n →
    step s {| store := store s; listeners := listeners s;
              selectors := <[n := {| _transformer := _transformer sel; _deps := _deps sel;
                                     _listeners := _listeners sel ++ [length (heap s)] |}]>
                             (selectors s);
              heap := heap s ++ [l] |}.

Definition handle_of (e : Event) : nat :=
  match e with
  | Call h _ => h
  end.

(** No event of the trace is a call of listener object [h]. *)
Definition never_calls (h : nat) (t : list Event) : Prop :=
  Forall (λ e, handle_of e ≠ h) t.

(** [m] keeps [I] and its trace satisfies [T], whether it returns or
    throws. *)
Definition safe (I : DataStore → Prop) (T : list Event → Prop) {A} (m : M A) : Prop :=
  ∀ s, I s → I (state_of (m s)) ∧ T (trace_of (m s)).

Definition callable (T : list Event → Prop) (h : nat) : Prop :=
  ∀ args, T [Call h args].

(** The value [get] would return for a value name, [undefined] standing
    for a name that [_initDataStoreItem] is about to create. *)
Definition current_value (s : DataStore) (name : string) : Value :=
  match store s !! name with
  | Some item => _data item
  | None => VUndefined
  end.

(** The calls of one selector's listeners, each with the selector's value. *)
Definition selector_calls (s : DataStore) (selectorName : string) : list Event :=
  match selectors s !! selectorName, selector_result s selectorName with
  | Some sel, Ret v => (λ h, Call h [v]) <$> _listeners sel
  | _, _ => []
  end.

(** The listener objects of a selector. *)
Definition selector_listeners (s : DataStore) (selectorName : string) : list nat :=
  match selectors s !! selectorName with
  | Some sel => _listeners sel
  | None => []
  end.

(** The store after [this.store[name] = item]. *)
Definition put_item (name : string) (item : StoreItem) (s : DataStore) : DataStore :=
  {| store := <[name := item]> (store s); listeners := listeners s;
     selectors := selectors s; heap := heap s |}.

(** The callback of listener object [h] only observes. *)
Definition quiet (s : DataStore) (h : nat) : Prop :=
  ∃ l, heap s !! h = Some l ∧ calls_remove (onChange l) = [].

(** Two selector entries, or their absence, define the same derivation. *)
Definition same_definition (a b : option Selector) : Prop :=
  match a, b with
  | Some x, Some y => _transformer x = _transformer y ∧ _deps x = _deps y
  | None, None => True
  | _, _ => False
  end.

(** [x = 1] and [y = 2], with the selector [s] defined over [x]. *)
Definition store_two : DataStore :=
  (run [ CInitDataStore [("x", VNumber 1); ("y", VNumber 2)] [];
         CDefineSelector (VString "s") (OneName "x") double ] constructor).1.

(** The store after [addDataListener] has created the value if need be,
    made the listener object and pushed it on the array of the name. *)
Definition with_data_listener (name : string) (onChange : Callback) (s : DataStore)
    : DataStore :=
  let s0 := init_item name VUndefined s in
  {| store := store s0;
     listeners := <[name := default [] (listeners s0 !! name) ++ [length (heap s0)]]>
                    (listeners s0);
     selectors := selectors s0;
     heap := heap s0 ++ [{| onChange := onChange; _removed := false;
                            target := DataTarget name |}] |}.

(** The listener objects of an array have not been removed. *)
Definition all_live (s : DataStore) (ls : list nat) : Prop :=
  ∀ h, h ∈ ls → ∃ l, heap s !! h = Some l ∧ _removed l = false.

(** [a = 1] with one listener, after [defineSelector] of [s] over [a] and
    the unknown [missing] has thrown. *)
Definition store_dangling : DataStore :=
  (run [ CInitDataStore [("a", VNumber 1)] [];
         CAddDataListener "a" observer false;
         CDefineSelector (VString "s") (NameArray ["a"; "missing"]) double ] constructor).1.

(** The value a subscription made now is first called with: the stored
    value of a value name ([undefined] for a name not yet created), the
    computed value of a selector name. *)
Definition bound_value (s : DataStore) (name : string) : Outcome Value :=
  if Z.eqb (indexOf name SELECTOR_PREFIX) 0 then selector_result s name
  else Ret (current_value s name).

Definition value_or_undefined (o : Outcome Value) : Value :=
  match o with
  | Ret v => v
  | Throw _ => VUndefined
  end.

(** The store after [addSelectorListener] has made the listener object
    and pushed it on the array of the selector. *)
Definition with_selector_listener (selectorName : string) (onChange : Callback)
    (sel : Selector) (s : DataStore) : DataStore :=
  {| store := store s; listeners := listeners s;
     selectors := <[selectorName :=
                      {| _transformer := _transformer sel; _deps := _deps sel;
                         _listeners := _listeners sel ++ [length (heap s)] |}]>
                    (selectors s);
     heap := heap s ++ [{| onChange := onChange; _removed := false;
                           target := SelectorTarget selectorName |}] |}.

(** [store_double] with a component mounted on [x] and on the selector
    [double]: listener objects 3 and 4. *)
Definition store_mounted : DataStore :=
  (run [ CInitDataStore [("x", VNumber 1)] [];
         CDefineSelector (VString "double") (NameArray ["x"]) double;
         CAddSelectorListener "double" observer false;
         CAddDataListener "x" observer false;
         CAddDataListener "x" observer false;
         CAddDataListener "x" setState_callback true;
         CAddSelectorListener "selector::double" setState_callback true ] constructor).1.

(** [this._removed = true] on a listener object, and the store with it. *)
Definition flag (l : Listener) : Listener :=
  {| onChange := onChange l; _removed := true; target := target l |}.

Definition flagged (h : nat) (l : Listener) (s : DataStore) : DataStore :=
  {| store := store s; listeners := listeners s; selectors := selectors s;
     heap := <[h := flag l]> (heap s) |}.

(** ** The comparator as the specification words it *)

(** The reference definition of the change comparator.  The first key is
    the first key of the first argument, the new value.  [None]: the
    wording names a first key and two plain objects without keys have
    none. *)
Definition reference_diff (a b : Value) : option bool :=
  if isObject a && isObject b then
    if bool_decide (length (Object_keys a) ≠ length (Object_keys b)) then Some true
    else
      match head (Object_keys a) with
      | None => None
      | Some key =>
          let va := get_prop a key in
          let vb := get_prop b key in
          if bool_decide (typeof va ≠ TFunction ∧ typeof vb ≠ TFunction
                          ∧ isObject va = false ∧ isObject vb = false)
          then Some (bool_decide (JSON_stringify va ≠ JSON_stringify vb))
          else Some true
      end
  else if bool_decide (typeof a ≠ typeof b) then Some true
  else if bool_decide (typeof a = TFunction ∧ typeof b = TFunction) then Some true
  else Some (bool_decide (JSON_stringify a ≠ JSON_stringify b)).

(** The values [JSON.stringify] is modelled on: no plain object inside
    them has a function under the name [toJSON], which [JSON.stringify]
    would call. *)
Fixpoint json_plain (v : Value) : bool :=
  match v with
  | VArray elems =>
      (fix all (l : list Value) : bool :=
         match l with
         | [] => true
         | x :: rest => json_plain x && all rest
         end) elems
  | VObject props =>
      negb (bool_decide (typeof (default VUndefined (assoc_find "toJSON" props)) = TFunction))
      && (fix all (l : list (string * Value)) : bool :=
            match l with
            | [] => true
            | (_, x) :: rest => json_plain x && all rest
            end) props
  | _ => true
  end.

(** The value has no own property named [hasOwnProperty]: the method the
    comparator calls on it is the builtin. *)
Definition builtin_hasOwnProperty (o : Value) : Prop :=
  assoc_find "hasOwnProperty" (own_props o) = None.

#[global] Instance builtin_hasOwnProperty_dec o : Decision (builtin_hasOwnProperty o).
Proof. unfold builtin_hasOwnProperty. apply _. Defined.

(** ** More example stores *)

(** A value whose object has a property named [hasOwnProperty]. *)
Definition obj_shadow (z : Z) : Value := VObject [("hasOwnProperty", VNumber z)].

Definition store_shadow : DataStore :=
  (run [ CInitDataStore [("x", obj_shadow 1)] [];
         CAddDataListener "x" observer false ] constructor).1.

(** [a = 1] with listener object 0; [defineSelector] of [s] over [a] and
    the unknown [missing] has thrown; then the selector [t] over [a] was
    defined and listener object 1 subscribed to it. *)
Definition store_dangling_then_t : DataStore :=
  (run [ CInitDataStore [("a", VNumber 1)] [];
         CAddDataListener "a" observer false;
         CDefineSelector (VString "s") (NameArray ["a"; "missing"]) double;
         CDefineSelector (VString "t") (NameArray ["a"]) double;
         CAddSelectorListener "t" observer false ] constructor).1.

(** * Properties *)

(** Closed goals about the example stores are settled by evaluation. *)
Ltac by_computation :=
  clear; vm_compute; first [reflexivity | discriminate | repeat split; reflexivity].

(** ** The comparator *)

Lemma assoc_find_head {A} (k : string) (x : A) rest :
  assoc_find k ((k, x) :: rest) = Some x.
Proof. simpl. by rewrite String.eqb_refl. Qed.

Lemma for_in_keys_first (k : string) (v : Value) rest keys b :
  builtin_hasOwnProperty (VObject ((k, v) :: rest)) →
  for_in_keys (k :: keys) (VObject ((k, v) :: rest)) b =
  Ret (if bothValueNotFunction v (get_prop b k)
          && (negb (isObject v) && negb (isObject (get_prop b k)))
       then negb (nonOnbjectValueEquals v (get_prop b k)) else true).
Proof.
  unfold builtin_hasOwnProperty. cbn [own_props]. intros Hb.
  cbn [for_in_keys]. unfold hasOwnProperty, get_prop. cbn [own_props].
  rewrite Hb, assoc_find_head. rewrite bool_decide_eq_true_2 by eauto.
  by case_match.
Qed.

(** An own property [hasOwnProperty] that is no function: the call in the
    loop's first round is a [TypeError]. *)
Lemma for_in_keys_shadowed (k : string) keys props w b :
  assoc_find "hasOwnProperty" props = Some w →
  typeof w ≠ TFunction →
  for_in_keys (k :: keys) (VObject props) b = Throw TypeError.
Proof.
  intros Hw Hnf. cbn [for_in_keys]. unfold hasOwnProperty. cbn [own_props].
  rewrite Hw. by destruct w.
Qed.

Lemma first_key_condition (v w : Value) :
  bothValueNotFunction v w && (negb (isObject v) && negb (isObject w)) =
  bool_decide (typeof v ≠ TFunction ∧ typeof w ≠ TFunction
               ∧ isObject v = false ∧ isObject w = false).
Proof. destruct v, w; reflexivity. Qed.

Lemma negb_bool_decide (P : Prop) `{Decision P} :
  negb (bool_decide P) = bool_decide (¬ P).
Proof. by rewrite bool_decide_not. Qed.

Lemma _compareValuesDiff_objects pa pb :
  _compareValuesDiff (VObject pa) (VObject pb) = isShallowDiff (VObject pa) (VObject pb).
Proof. reflexivity. Qed.

(** Two plain objects with as many keys, at least one, the first of them
    with an own property [hasOwnProperty] that is no function. *)
Lemma _compareValuesDiff_shadowed pa pb w :
  pa ≠ [] → length pa = length pb →
  assoc_find "hasOwnProperty" pa = Some w →
  typeof w ≠ TFunction →
  _compareValuesDiff (VObject pa) (VObject pb) = Throw TypeError.
Proof.
  intros Hne Hlen Hw Hnf. rewrite _compareValuesDiff_objects.
  unfold isShallowDiff, Object_keys. cbn [own_props]. rewrite !length_fmap.
  rewrite Hlen, Nat.eqb_refl. cbn [negb].
  destruct pa as [|[k v] rest]; [done|]. cbn [fmap list_fmap fst].
  by apply (for_in_keys_shadowed k _ _ w).
Qed.

(** C3. The comparator departs from the reference definition on plain
    objects that have a property named [hasOwnProperty].  For the new
    value [{hasOwnProperty: 2}] against the stored [{hasOwnProperty: 1}]
    the reference definition inspects the first key, finds the numbers 2
    and 1 and reports a difference; the code calls [a.hasOwnProperty(key)]
    on the new value, where the property is the number 2, and throws a
    [TypeError].  [update] with that value throws before it stores anything
    or calls a listener. *)
Theorem compareValuesDiff_own_hasOwnProperty_throws :
  reference_diff (obj_shadow 2) (obj_shadow 1) = Some true
  ∧ _compareValuesDiff (obj_shadow 2) (obj_shadow 1) = Throw TypeError
  ∧ current_value store_shadow "x" = obj_shadow 1
  ∧ listeners store_shadow !! "x" = Some [0]
  ∧ update "x" (obj_shadow 2) store_shadow = (Throw TypeError, store_shadow, []).
Proof. by_computation. Qed.

(** Where the new value has no own property named [hasOwnProperty], the
    comparator agrees with the reference definition wherever that
    definition gives an answer; the one input pair it leaves open, two
    plain objects without keys, is reported unchanged.  Property reads go
    through the prototype chain on both sides: a key the stored object
    does not own reads as the member of [Object.prototype] of that name,
    if there is one. *)
Theorem compareValuesDiff_reference (a b : Value) :
  builtin_hasOwnProperty a →
  json_plain a = true → json_plain b = true →
  match reference_diff a b with
  | Some r => _compareValuesDiff a b = Ret r
  | None => a = VObject [] ∧ b = VObject [] ∧ _compareValuesDiff a b = Ret false
  end.
Proof.
  intros Hbuiltin _ _. unfold reference_diff.
  destruct (isObject a && isObject b) eqn:Hobj.
  - destruct a as [| | | | | |pa|]; try discriminate.
    destruct b as [| | | | | |pb|]; try discriminate.
    rewrite _compareValuesDiff_objects. unfold isShallowDiff, Object_keys.
    cbn [own_props]. rewrite !length_fmap.
    destruct (Nat.eqb_spec (length pa) (length pb)) as [Hlen|Hlen].
    + rewrite bool_decide_eq_false_2 by (intros ?; congruence). cbn [negb].
      destruct pa as [|[k v] rest].
      * destruct pb; [done | discriminate].
      * cbn [fmap list_fmap head fst].
        pose proof (for_in_keys_first k v rest (rest.*1) (VObject pb) Hbuiltin) as Hfirst.
        cbn [fmap list_fmap] in Hfirst. rewrite Hfirst. clear Hfirst.
        assert (Hv : get_prop (VObject ((k, v) :: rest)) k = v).
        { unfold get_prop. cbn [own_props]. by rewrite assoc_find_head. }
        rewrite Hv. set (w := get_prop (VObject pb) k).
        rewrite first_key_condition. unfold nonOnbjectValueEquals.
        case_bool_decide; [|done].
        by rewrite negb_bool_decide.
    + rewrite bool_decide_eq_true_2 by done. done.
  - assert (Hcase : _compareValuesDiff a b =
        if negb (bool_decide (typeof a = typeof b)) then Ret true
        else if bool_decide (typeof a = TFunction) && bool_decide (typeof b = TFunction)
             then Ret true
             else Ret (negb (bool_decide (JSON_stringify a = JSON_stringify b)))).
    { unfold _compareValuesDiff, compareStrategies. cbn [List.find compareCase].
      rewrite Hobj. repeat case_match; simplify_eq; done. }
    rewrite Hcase. rewrite !negb_bool_decide.
    destruct (decide (typeof a = typeof b)) as [Ht|Ht].
    + rewrite !(bool_decide_eq_false_2 (typeof a ≠ typeof b)) by naive_solver.
      destruct (decide (typeof a = TFunction)) as [Hf1|Hf1];
        destruct (decide (typeof b = TFunction)) as [Hf2|Hf2].
      * rewrite !bool_decide_eq_true_2 by done. done.
      * congruence.
      * congruence.
      * rewrite (bool_decide_eq_false_2 (typeof a = TFunction)) by done.
        rewrite (bool_decide_eq_false_2 (_ ∧ _)) by naive_solver. done.
    + rewrite !(bool_decide_eq_true_2 (typeof a ≠ typeof b)) by done. done.
Qed.

Lemma compareValuesDiff_reference_witness :
  _compareValuesDiff obj_a1_b3 obj_a1_b2 = Ret false
  ∧ _compareValuesDiff (VObject [("constructor", VUndefined)]) (VObject [("x", VNumber 5)])
    = Ret true
  ∧ _compareValuesDiff (VArray [VNumber 1]) (VArray [VNumber 2]) = Ret true
  ∧ _compareValuesDiff (VObject []) (VObject []) = Ret false.
Proof.
  split; [|split; [|split]].
  - apply (compareValuesDiff_reference obj_a1_b3 obj_a1_b2); by_computation.
  - apply (compareValuesDiff_reference (VObject [("constructor", VUndefined)])
             (VObject [("x", VNumber 5)])); by_computation.
  - apply (compareValuesDiff_reference (VArray [VNumber 1]) (VArray [VNumber 2]));
      by_computation.
  - apply (compareValuesDiff_reference (VObject []) (VObject [])); by_computation.
Defined.

(** ** The monad *)

Lemma bind_unfold {A B} (m : M A) (f : A → M B) s :
  bind m f s =
  match m s with
  | (Ret a, s1, t1) => match f a s1 with (o, s2, t2) => (o, s2, t1 ++ t2) end
  | (Throw e, s1, t1) => (Throw e, s1, t1)
  end.
Proof. reflexivity. Qed.

Lemma bind_Ret {A B} (m : M A) (f : A → M B) s a s1 t1 :
  m s = (Ret a, s1, t1) →
  bind m f s = (outcome_of (f a s1), state_of (f a s1), t1 ++ trace_of (f a s1)).
Proof. intros H. rewrite bind_unfold, H. by destruct (f a s1) as [[o s2] t2]. Qed.

Lemma bind_Throw {A B} (m : M A) (f : A → M B) s e s1 t1 :
  m s = (Throw e, s1, t1) → bind m f s = (Throw e, s1, t1).
Proof. intros H. by rewrite bind_unfold, H. Qed.

Lemma bind_Ret_nil {A B} (m : M A) (f : A → M B) s a s1 :
  m s = (Ret a, s1, []) → bind m f s = f a s1.
Proof. intros H. rewrite bind_unfold, H. by destruct (f a s1) as [[o s2] t2]. Qed.

Lemma trace_bind_ret {A B} (m : M A) (g : A → B) s :
  trace_of (bind m (λ a, ret (g a)) s) = trace_of (m s).
Proof.
  rewrite bind_unfold. destruct (m s) as [[[a|e] s1] t1]; [|done].
  cbn. apply app_nil_r.
Qed.

Lemma forEach_pure {A} (l : list A) (f : A → M unit) (g : A → DataStore → DataStore) :
  (∀ x s, f x s = (Ret tt, g x s, [])) →
  ∀ s, forEach l f s = (Ret tt, foldl (λ s x, g x s) s l, []).
Proof.
  intros Hf. induction l as [|x l IH]; intros s; [done|].
  cbn [forEach foldl]. unfold bind. rewrite Hf, IH. done.
Qed.

Lemma _initDataStoreItem_run name value s :
  _initDataStoreItem name value s = (Ret tt, init_item name value s, []).
Proof.
  unfold _initDataStoreItem, init_item, bind, get_state. cbn.
  by destruct (bool_decide (is_Some (store s !! name))).
Qed.

Lemma write_selector_run name sel s :
  write_selector name sel s = (Ret tt, put_selector name sel s, []).
Proof. reflexivity. Qed.

Lemma dep_data_run (deps : list string) s :
  Array_map deps (λ dep, let! item := read_store dep in ret (_data item)) s =
  (match dep_data s deps with Some vs => Ret vs | None => Throw TypeError end, s, []).
Proof.
  induction deps as [|dep deps IH]; [done|].
  cbn [Array_map dep_data]. rewrite bind_unfold.
  unfold read_store at 1. rewrite !bind_unfold. unfold get_state, defined at 1.
  destruct (store s !! dep) as [item|]; cbn; [|done].
  rewrite bind_unfold, IH.
  by destruct (dep_data s deps).
Qed.

Lemma getSelector_run name s :
  getSelector name s = (selector_result s name, s, []).
Proof.
  unfold getSelector, selector_result. rewrite bind_unfold. unfold get_state.
  destruct (selectors s !! name) as [sel|]; [|done].
  rewrite bind_unfold, dep_data_run.
  by destruct (dep_data s (_deps sel)).
Qed.

(** ** Names *)

Lemma indexOf_prefix (s pat : string) :
  indexOf s pat = 0%Z ↔ String.prefix pat s = true.
Proof.
  unfold indexOf. destruct s as [|b s'].
  - destruct pat; cbn; [done|]. split; discriminate.
  - cbn [String.index]. destruct (String.prefix pat (String b s')); [done|].
    destruct (String.index 0 pat s'); split; (discriminate || lia).
Qed.

Lemma prefix_app (p n : string) : String.prefix p (p +:+ n) = true.
Proof.
  induction p as [|a p IH]; cbn.
  - by destruct n.
  - change (String.prefix (String a p) (String a (p +:+ n)) = true).
    simpl. by destruct (Ascii.ascii_dec a a).
Qed.

Lemma qualify_prefixed name : indexOf (qualify name) SELECTOR_PREFIX = 0%Z.
Proof.
  unfold qualify. destruct (Z.eqb_spec (indexOf name SELECTOR_PREFIX) 0) as [H|H]; cbn [negb].
  - done.
  - apply indexOf_prefix, prefix_app.
Qed.

Lemma qualify_fixed name : indexOf name SELECTOR_PREFIX = 0%Z → qualify name = name.
Proof. intros H. unfold qualify. by rewrite H. Qed.

Lemma qualify_idemp name : qualify (qualify name) = qualify name.
Proof. apply qualify_fixed, qualify_prefixed. Qed.

Lemma qualify_bare name :
  indexOf name SELECTOR_PREFIX ≠ 0%Z → qualify name = SELECTOR_PREFIX +:+ name.
Proof.
  intros H. unfold qualify.
  destruct (Z.eqb_spec (indexOf name SELECTOR_PREFIX) 0); done.
Qed.

(** ** Reading values and selectors *)

(** C4. [get] on a raw name that has no entry throws the not-initialized
    error, and [get] and [getSelector] on a prefixed name that has no
    selector entry throw the undefined-selector error; the store is left
    as it was and no listener runs. *)
Theorem get_unknown_name_throws (s : DataStore) (name : string) :
  (indexOf name SELECTOR_PREFIX ≠ 0%Z → store s !! name = None →
     get name s = (Throw (NotInitializedError name), s, []))
  ∧ (indexOf name SELECTOR_PREFIX = 0%Z → selectors s !! name = None →
     get name s = (Throw (UndefinedSelectorError name), s, [])
     ∧ getSelector name s = (Throw (UndefinedSelectorError name), s, [])).
Proof.
  split.
  - intros Hraw Hnone. unfold get.
    destruct (Z.eqb_spec (indexOf name SELECTOR_PREFIX) 0) as [|_]; [done|].
    unfold bind, get_state. cbn. by rewrite Hnone.
  - intros Hsel Hnone.
    assert (Hthrow : getSelector name s = (Throw (UndefinedSelectorError name), s, [])).
    { rewrite getSelector_run. unfold selector_result. by rewrite Hnone. }
    split; [|done]. unfold get. by rewrite Hsel.
Qed.

Lemma get_unknown_name_throws_witness :
  get "x" constructor = (Throw (NotInitializedError "x"), constructor, [])
  ∧ get "selector::y" store_double
    = (Throw (UndefinedSelectorError "selector::y"), store_double, [])
  ∧ getSelector "selector::y" store_double
    = (Throw (UndefinedSelectorError "selector::y"), store_double, []).
Proof.
  split.
  - apply (get_unknown_name_throws constructor "x"); [by_computation | reflexivity].
  - apply (get_unknown_name_throws store_double "selector::y"); [reflexivity | by_computation].
Defined.

(** ** Selector names with and without the prefix *)

(** C8, as the claim states it, fails: with the selector [double] defined
    and [x = 1], [get] on the bare name does not reach the selector that
    [get] on the prefixed name computes, and neither does [getSelector]. *)
Lemma get_bare_selector_name_differs :
  outcome_of (get "selector::double" store_double) = Ret (VNumber 2)
  ∧ outcome_of (get "double" store_double) = Throw (NotInitializedError "double")
  ∧ outcome_of (getSelector "selector::double" store_double) = Ret (VNumber 2)
  ∧ outcome_of (getSelector "double" store_double) = Throw (UndefinedSelectorError "double").
Proof. by_computation. Qed.

Lemma initDataStore_run data sels s :
  initDataStore data sels s =
  (Ret tt,
   foldl (λ s n, put_selector (qualify n) placeholder s)
     (foldl (λ s entry, init_item entry.1 entry.2 s) s data) sels,
   []).
Proof.
  unfold initDataStore. rewrite bind_unfold.
  rewrite (forEach_pure data _ (λ entry, init_item entry.1 entry.2))
    by (intros; apply _initDataStoreItem_run).
  rewrite (forEach_pure sels _ (λ n, put_selector (qualify n) placeholder))
    by (intros; apply write_selector_run).
  done.
Qed.

(** C8, amended.  [defineSelector], [addSelectorListener] and the selector
    list of [initDataStore] qualify the name they are given, so they do
    the same on a bare name and on its qualified form, which for a bare
    name is the prefix followed by the name.  [get] does not: on a bare
    name it reads the raw value of that name and never a selector, and
    [getSelector] looks up the name as it is given. *)
Theorem selector_name_qualified (name : string) (s : DataStore) :
  (indexOf name SELECTOR_PREFIX ≠ 0%Z → qualify name = SELECTOR_PREFIX +:+ name)
  ∧ (∀ depNames transformer,
       defineSelector (VString name) depNames transformer s
       = defineSelector (VString (qualify name)) depNames transformer s)
  ∧ (∀ onChange executeImmediately,
       addSelectorListener name onChange executeImmediately s
       = addSelectorListener (qualify name) onChange executeImmediately s)
  ∧ (∀ data names,
       initDataStore data names s = initDataStore data (qualify <$> names) s)
  ∧ (indexOf name SELECTOR_PREFIX ≠ 0%Z →
       get name s =
       (match store s !! name with
        | Some item => Ret (_data item)
        | None => Throw (NotInitializedError name)
        end, s, []))
  ∧ (selectors s !! name = None →
       getSelector name s = (Throw (UndefinedSelectorError name), s, [])).
Proof.
  split; [apply qualify_bare|].
  split; [intros; unfold defineSelector; by rewrite qualify_idemp|].
  split; [intros; unfold addSelectorListener; by rewrite qualify_idemp|].
  split; [|split].
  - intros data names. rewrite !initDataStore_run. f_equal. f_equal.
    generalize (foldl (λ s entry, init_item entry.1 entry.2 s) s data).
    induction names as [|n names IH]; intros s0; [done|].
    cbn [fmap list_fmap foldl]. rewrite qualify_idemp. apply IH.
  - intros Hraw. unfold get.
    destruct (Z.eqb_spec (indexOf name SELECTOR_PREFIX) 0) as [|_]; [done|].
    rewrite bind_unfold. unfold get_state.
    by destruct (store s !! name).
  - intros Hnone. rewrite getSelector_run. unfold selector_result. by rewrite Hnone.
Qed.

Lemma selector_name_qualified_witness :
  qualify "double" = "selector::double"
  ∧ get "double" store_double = (Throw (NotInitializedError "double"), store_double, [])
  ∧ getSelector "double" store_double
    = (Throw (UndefinedSelectorError "double"), store_double, []).
Proof.
  destruct (selector_name_qualified "double" store_double)
    as (Hq & _ & _ & _ & Hget & Hsel).
  split; [|split].
  - apply Hq. by_computation.
  - rewrite Hget by by_computation. reflexivity.
  - apply Hsel. by_computation.
Defined.

(** ** [initDataStore] *)

Lemma init_item_store_some name value s n :
  is_Some (store s !! n) →
  store (init_item name value s) !! n = store s !! n
  ∧ listeners (init_item name value s) !! n = listeners s !! n.
Proof.
  intros Hn. unfold init_item. case_bool_decide as Hname; [done|].
  assert (name ≠ n) by (intros ->; done).
  cbn. by rewrite !lookup_insert_ne.
Qed.

Lemma init_items_store_some (data : list (string * Value)) s n :
  is_Some (store s !! n) →
  let s' := foldl (λ s entry, init_item entry.1 entry.2 s) s data in
  store s' !! n = store s !! n ∧ listeners s' !! n = listeners s !! n.
Proof.
  revert s. induction data as [|[k v] data IH]; intros s Hn; [done|].
  cbn [foldl fst snd].
  destruct (init_item_store_some k v s n Hn) as [Hst Hls].
  destruct (IH (init_item k v s)) as [Hst' Hls']; [by rewrite Hst|].
  cbn zeta in *. by rewrite Hst', Hls', Hst, Hls.
Qed.

Lemma put_selectors_frame (sels : list string) s :
  let s' := foldl (λ s n, put_selector (qualify n) placeholder s) s sels in
  store s' = store s ∧ listeners s' = listeners s ∧ heap s' = heap s.
Proof.
  revert s. induction sels as [|n sels IH]; intros s; [done|].
  cbn [foldl]. apply (IH (put_selector (qualify n) placeholder s)).
Qed.

Lemma put_selectors_keep (sels : list string) s k :
  selectors s !! k = Some placeholder →
  selectors (foldl (λ s n, put_selector (qualify n) placeholder s) s sels) !! k
  = Some placeholder.
Proof.
  revert s. induction sels as [|n sels IH]; intros s Hk; [done|].
  cbn [foldl]. apply IH. cbn.
  destruct (decide (qualify n = k)) as [->|Hne].
  - by rewrite lookup_insert_eq.
  - by rewrite lookup_insert_ne.
Qed.

Lemma put_selectors_lookup (sels : list string) s n :
  n ∈ sels →
  selectors (foldl (λ s n, put_selector (qualify n) placeholder s) s sels) !! qualify n
  = Some placeholder.
Proof.
  revert s. induction sels as [|m sels IH]; intros s Hin; [by apply elem_of_nil in Hin|].
  cbn [foldl]. apply elem_of_cons in Hin as [->|Hin].
  - apply put_selectors_keep. cbn. by rewrite lookup_insert_eq.
  - by apply IH.
Qed.

(** C10. [initDataStore] always returns; every name of its selector list
    ends up, under its qualified name, with the placeholder entry (the
    transformer returning [undefined], no dependencies, no listeners)
    whatever entry was there before, while every value name that already
    exists keeps its value, its dependent selectors and its listeners. *)
Theorem initDataStore_overwrites_selectors
    (data : list (string * Value)) (sels : list string) (s : DataStore) :
  outcome_of (initDataStore data sels s) = Ret tt
  ∧ (∀ n, n ∈ sels →
       selectors (state_of (initDataStore data sels s)) !! qualify n = Some placeholder)
  ∧ (∀ name, is_Some (store s !! name) →
       store (state_of (initDataStore data sels s)) !! name = store s !! name
       ∧ listeners (state_of (initDataStore data sels s)) !! name = listeners s !! name).
Proof.
  rewrite initDataStore_run. unfold outcome_of, state_of. cbn [fst snd].
  split; [done|]. split.
  - intros n Hn. by apply put_selectors_lookup.
  - intros name Hname.
    destruct (put_selectors_frame sels
                (foldl (λ s entry, init_item entry.1 entry.2 s) s data)) as (-> & -> & _).
    by apply init_items_store_some.
Qed.

(** The selector [double] of [store_double] is defined over [x] and has a
    listener; [initDataStore] naming it resets it, and [x], named in the
    data argument with another value, keeps its value 1 and its two
    listeners. *)
Lemma initDataStore_overwrites_selectors_witness :
  (_deps <$> selectors store_double !! "selector::double") = Some ["x"]
  ∧ (_listeners <$> selectors store_double !! "selector::double") = Some [0]
  ∧ selectors (state_of (initDataStore [("x", VNumber 7)] ["double"] store_double))
      !! qualify "double" = Some placeholder
  ∧ store (state_of (initDataStore [("x", VNumber 7)] ["double"] store_double)) !! "x"
    = Some {| _data := VNumber 1; _selectors := ["selector::double"] |}
  ∧ listeners (state_of (initDataStore [("x", VNumber 7)] ["double"] store_double)) !! "x"
    = Some [1; 2].
Proof.
  destruct (initDataStore_overwrites_selectors [("x", VNumber 7)] ["double"] store_double)
    as (_ & Hsel & Hdata).
  split; [by_computation|]. split; [by_computation|].
  split; [apply Hsel; left|].
  destruct (Hdata "x") as [Hst Hls]; [eexists; by_computation|].
  rewrite Hst, Hls. split; by_computation.
Defined.

(** ** [defineSelector] on an unknown dependency *)

(** C5, at a failing input.  With [a] the only value, defining the
    selector [s] over [a] and the unknown [missing] throws, and no selector
    entry is made; but the dependent-selector list of [a], empty before,
    now names the selector, which a later [update] of [a] then fails to
    find.  A name that is not a string is turned down before anything is
    touched. *)
Theorem defineSelector_unknown_dep_partial :
  let r := defineSelector (VString "s") (NameArray ["a"; "missing"]) double store_a in
  store store_a !! "missing" = None
  ∧ (_selectors <$> store store_a !! "a") = Some []
  ∧ outcome_of r = Throw TypeError
  ∧ selectors (state_of r) !! "selector::s" = None
  ∧ (_selectors <$> store (state_of r) !! "a") = Some ["selector::s"]
  ∧ outcome_of (update "a" (VNumber 2) (state_of r)) = Throw TypeError
  ∧ defineSelector (VNumber 3) (NameArray ["a"]) double store_a
    = (Throw TypeError, store_a, []).
Proof. by_computation. Qed.

(** ** [update] with an unchanged value *)

Lemma update_unchanged name data s item :
  store s !! name = Some item →
  _compareValuesDiff data (_data item) = Ret false →
  update name data s = (Ret ReturnsUndefined, s, []).
Proof.
  intros Hitem Hsame. unfold update.
  rewrite bind_unfold, _initDataStoreItem_run.
  assert (Hinit : init_item name VUndefined s = s).
  { unfold init_item. by rewrite bool_decide_eq_true_2 by eauto. }
  rewrite Hinit. rewrite bind_unfold.
  unfold read_store at 1. rewrite bind_unfold. unfold get_state at 1, defined at 1.
  rewrite Hitem. cbn [ret app].
  rewrite bind_unfold. unfold lift at 1. rewrite Hsame. done.
Qed.

(** C2, as the claim states it, fails.  With [x = {a: 1, b: 2}] and one
    listener, [update(x, {a: 1, b: 3})] is taken as no change, because the
    comparator looks at the first key only, and leaves [{a: 1, b: 2}]
    stored.  The comparator finds [{b: 3, a: 1}] equal to [{a: 1, b: 3}],
    in both directions, yet [update(x, {b: 3, a: 1})] is compared with the
    stored [{a: 1, b: 2}]: it replaces the value and calls the listener. *)
Lemma update_after_skipped_update_notifies :
  let s1 := state_of (update "x" obj_a1_b3 store_object) in
  _compareValuesDiff obj_b3_a1 obj_a1_b3 = Ret false
  ∧ _compareValuesDiff obj_a1_b3 obj_b3_a1 = Ret false
  ∧ (_data <$> store s1 !! "x") = Some obj_a1_b2
  ∧ trace_of (update "x" obj_b3_a1 s1) = [Call 0 [obj_b3_a1; obj_a1_b2]]
  ∧ (_data <$> store (state_of (update "x" obj_b3_a1 s1)) !! "x") = Some obj_b3_a1.
Proof. by_computation. Qed.

(** C2, amended.  If [v1] is the value stored under the name once
    [update(name, v1)] has run, and the comparator reports [v2] not
    different from [v1], then [update(name, v2)] returns with the store
    exactly as it was and without calling any listener. *)
Theorem update_equal_value_noop (s : DataStore) (name : string) (v1 v2 : Value) :
  (_data <$> store (state_of (update name v1 s)) !! name) = Some v1 →
  _compareValuesDiff v2 v1 = Ret false →
  update name v2 (state_of (update name v1 s))
  = (Ret ReturnsUndefined, state_of (update name v1 s), []).
Proof.
  intros Hstored Hsame.
  destruct (store (state_of (update name v1 s)) !! name) as [item|] eqn:Hitem;
    [|discriminate].
  apply (update_unchanged _ _ _ item); [done|].
  cbn in Hstored. by simplify_eq.
Qed.

Lemma update_equal_value_noop_witness :
  update "x" obj_a2_b4 (state_of (update "x" obj_a2_b3 store_object))
  = (Ret ReturnsUndefined, state_of (update "x" obj_a2_b3 store_object), []).
Proof.
  apply (update_equal_value_noop store_object "x" obj_a2_b3 obj_a2_b4).
  - by_computation.
  - by_computation.
Defined.

(** ** Well-formed stores *)

Lemma wf_constructor : wf constructor.
Proof.
  split; cbn.
  - intros n [x Hx]. by rewrite lookup_empty in Hx.
  - intros n ls h Hn. by rewrite lookup_empty in Hn.
  - intros n sel h Hn. by rewrite lookup_empty in Hn.
  - intros n ls Hn. by rewrite lookup_empty in Hn.
  - intros n sel Hn. by rewrite lookup_empty in Hn.
  - intros n item Hn. by rewrite lookup_empty in Hn.
Qed.

Lemma heap_flag_target (hp : list Listener) h l l' h' l0 :
  hp !! h = Some l → target l' = target l → hp !! h' = Some l0 →
  ∃ l1, <[h := l']> hp !! h' = Some l1 ∧ target l1 = target l0.
Proof.
  intros Hh Ht Hh'. destruct (decide (h = h')) as [->|Hne].
  - exists l'. rewrite list_lookup_insert_eq by (by eapply lookup_lt_Some).
    split; [done|]. congruence.
  - exists l0. by rewrite list_lookup_insert_ne.
Qed.

Lemma wf_rstep s s' : rstep s s' → wf s → wf s'.
Proof.
  intros Hstep [Hls Hdt Hst Hdn Hsn Hdep].
  destruct Hstep as [h l l' Hh Ht | n ls ls' Hn Hsub | n sel ls' Hn Hsub].
  - split; cbn; [done| | |done|done|done].
    + intros n ls h' Hn Hin. destruct (Hdt n ls h' Hn Hin) as (l0 & Hl0 & Htg).
      destruct (heap_flag_target _ _ _ _ _ _ Hh Ht Hl0) as (l1 & ? & ?).
      exists l1. split; [done|congruence].
    + intros n sel h' Hn Hin. destruct (Hst n sel h' Hn Hin) as (l0 & Hl0 & Htg).
      destruct (heap_flag_target _ _ _ _ _ _ Hh Ht Hl0) as (l1 & ? & ?).
      exists l1. split; [done|congruence].
  - split; cbn; [| |done| |done|done].
    + intros m Hm. apply lookup_insert_is_Some'. right. auto.
    + intros m ls0 h Hm Hin. apply lookup_insert_Some in Hm as [[<- <-]|[Hne Hm]].
      * eapply Hdt; [exact Hn|]. by eapply elem_of_sublist.
      * eauto.
    + intros m ls0 Hm. apply lookup_insert_Some in Hm as [[<- <-]|[Hne Hm]].
      * eapply sublist_NoDup; eauto.
      * eauto.
  - split; cbn; [done|done| | done | |done].
    + intros m sel0 h Hm Hin. apply lookup_insert_Some in Hm as [[<- <-]|[Hne Hm]].
      * eapply Hst; [exact Hn|]. by eapply elem_of_sublist.
      * eauto.
    + intros m sel0 Hm. apply lookup_insert_Some in Hm as [[<- <-]|[Hne Hm]].
      * cbn. eapply sublist_NoDup; eauto.
      * eauto.
Qed.

Lemma wf_step s s' : step s s' → wf s → wf s'.
Proof.
  intros Hstep Hwf.
  destruct Hstep as [s' Hr | name value | name item item' Hitem Hnd | name sel Hnil | l
                    | n ls l Hn Ht | n sel l Hn Ht].
  - by eapply wf_rstep.
  - unfold init_item. case_bool_decide as Hname; [done|].
    destruct Hwf as [Hls Hdt Hst Hdn Hsn Hdep]. split; cbn; [| | done | | done |].
    + intros m Hm. apply lookup_insert_is_Some'.
      apply lookup_insert_is_Some' in Hm as [-> | Hm]; auto.
    + intros m ls h Hm Hin. apply lookup_insert_Some in Hm as [[<- <-]|[Hne Hm]].
      * by apply elem_of_nil in Hin.
      * eauto.
    + intros m ls Hm. apply lookup_insert_Some in Hm as [[<- <-]|[Hne Hm]].
      * constructor.
      * eauto.
    + intros m item Hm. apply lookup_insert_Some in Hm as [[<- <-]|[Hne Hm]].
      * constructor.
      * eauto.
  - destruct Hwf as [Hls Hdt Hst Hdn Hsn Hdep]. split; cbn; [|done..|].
    + intros m Hm. apply lookup_insert_is_Some' in Hm as [<-|Hm]; eauto.
    + intros m item0 Hm. apply lookup_insert_Some in Hm as [[<- <-]|[Hne Hm]]; eauto.
  - destruct Hwf as [Hls Hdt Hst Hdn Hsn Hdep]. split; cbn; [done|done| |done| |done].
    + intros m sel0 h Hm Hin. apply lookup_insert_Some in Hm as [[<- <-]|[Hne Hm]].
      * rewrite Hnil in Hin. by apply elem_of_nil in Hin.
      * eauto.
    + intros m sel0 Hm. apply lookup_insert_Some in Hm as [[<- <-]|[Hne Hm]].
      * rewrite Hnil. constructor.
      * eauto.
  - destruct Hwf as [Hls Hdt Hst Hdn Hsn Hdep]. split; cbn; [done| | |done|done|done].
    + intros m ls h Hm Hin. destruct (Hdt m ls h Hm Hin) as (l0 & Hl0 & ?).
      exists l0. split; [by apply lookup_app_l_Some|done].
    + intros m sel h Hm Hin. destruct (Hst m sel h Hm Hin) as (l0 & Hl0 & ?).
      exists l0. split; [by apply lookup_app_l_Some|done].
  - destruct Hwf as [Hls Hdt Hst Hdn Hsn Hdep]. split; cbn.
    + intros m Hm. apply lookup_insert_is_Some'. right. auto.
    + intros m ls0 h Hm Hin. apply lookup_insert_Some in Hm as [[<- <-]|[Hne Hm]].
      * apply elem_of_app in Hin as [Hin|Hin].
        -- destruct (Hdt n ls h Hn Hin) as (l0 & Hl0 & ?).
           exists l0. split; [by apply lookup_app_l_Some|done].
        -- apply list_elem_of_singleton in Hin as ->.
           exists l. split; [by apply list_lookup_middle|done].
      * destruct (Hdt m ls0 h Hm Hin) as (l0 & Hl0 & ?).
        exists l0. split; [by apply lookup_app_l_Some|done].
    + intros m sel h Hm Hin. destruct (Hst m sel h Hm Hin) as (l0 & Hl0 & ?).
      exists l0. split; [by apply lookup_app_l_Some|done].
    + intros m ls0 Hm. apply lookup_insert_Some in Hm as [[<- <-]|[Hne Hm]]; [|eauto].
      apply NoDup_app. split; [eauto|]. split; [|apply NoDup_singleton].
      intros h Hin Hin'. apply list_elem_of_singleton in Hin' as ->.
      destruct (Hdt n ls _ Hn Hin) as (l0 & Hl0 & _).
      apply lookup_lt_Some in Hl0. lia.
    + done.
    + done.
  - destruct Hwf as [Hls Hdt Hst Hdn Hsn Hdep]. split; cbn.
    + done.
    + intros m ls h Hm Hin. destruct (Hdt m ls h Hm Hin) as (l0 & Hl0 & ?).
      exists l0. split; [by apply lookup_app_l_Some|done].
    + intros m sel0 h Hm Hin. apply lookup_insert_Some in Hm as [[<- <-]|[Hne Hm]].
      * cbn in Hin. apply elem_of_app in Hin as [Hin|Hin].
        -- destruct (Hst n sel h Hn Hin) as (l0 & Hl0 & ?).
           exists l0. split; [by apply lookup_app_l_Some|done].
        -- apply list_elem_of_singleton in Hin as ->.
           exists l. split; [by apply list_lookup_middle|done].
      * destruct (Hst m sel0 h Hm Hin) as (l0 & Hl0 & ?).
        exists l0. split; [by apply lookup_app_l_Some|done].
    + done.
    + intros m sel0 Hm. apply lookup_insert_Some in Hm as [[<- <-]|[Hne Hm]]; [|eauto].
      cbn. apply NoDup_app. split; [eauto|]. split; [|apply NoDup_singleton].
      intros h Hin Hin'. apply list_elem_of_singleton in Hin' as ->.
      destruct (Hst n sel _ Hn Hin) as (l0 & Hl0 & _).
      apply lookup_lt_Some in Hl0. lia.
    + done.
Qed.

Lemma wf_steps s s' : rtc step s s' → wf s → wf s'.
Proof. induction 1; eauto using wf_step. Qed.

(** ** What the mutations leave alone *)

Lemma dep_data_store s s' deps : store s' = store s → dep_data s' deps = dep_data s deps.
Proof.
  intros Hst. induction deps as [|dep deps IH]; [done|].
  cbn [dep_data]. by rewrite Hst, IH.
Qed.

Lemma rstep_registered s s' h : rstep s s' → registered s' h → registered s h.
Proof.
  intros Hstep Hreg.
  destruct Hstep as [h0 l l' Hh Ht | n ls ls' Hn Hsub | n sel ls' Hn Hsub]; cbn in Hreg.
  - done.
  - destruct Hreg as [(m & ls0 & Hm & Hin)|Hreg]; [|by right].
    cbn in Hm. apply lookup_insert_Some in Hm as [[<- <-]|[Hne Hm]].
    + left. exists n, ls. split; [done|]. by eapply elem_of_sublist.
    + left. eauto.
  - destruct Hreg as [Hreg|(m & sel0 & Hm & Hin)]; [by left|].
    cbn in Hm. apply lookup_insert_Some in Hm as [[<- <-]|[Hne Hm]].
    + right. exists n, sel. split; [done|]. by eapply elem_of_sublist.
    + right. eauto.
Qed.

Lemma rstep_frame s s' :
  rstep s s' →
  store s' = store s ∧ length (heap s') = length (heap s)
  ∧ ∀ n, selector_result s' n = selector_result s n.
Proof.
  intros Hstep.
  destruct Hstep as [h0 l l' Hh Ht | n ls ls' Hn Hsub | n sel ls' Hn Hsub]; cbn.
  - split; [done|]. split; [apply length_insert|]. intros n. unfold selector_result. cbn.
    destruct (selectors s !! n); [|done]. by erewrite dep_data_store.
  - split; [done|]. split; [done|]. intros m. unfold selector_result. cbn.
    destruct (selectors s !! m); [|done]. by erewrite dep_data_store.
  - split; [done|]. split; [done|]. intros m. unfold selector_result. cbn.
    destruct (decide (n = m)) as [<-|Hne].
    + rewrite lookup_insert_eq, Hn. cbn. by erewrite dep_data_store.
    + rewrite lookup_insert_ne by done.
      destruct (selectors s !! m); [|done]. by erewrite dep_data_store.
Qed.

Lemma rsteps_frame s s' :
  rtc rstep s s' →
  store s' = store s ∧ length (heap s') = length (heap s)
  ∧ ∀ n, selector_result s' n = selector_result s n.
Proof.
  induction 1 as [|s s1 s2 Hstep _ (IH1 & IH2 & IH3)]; [done|].
  destruct (rstep_frame _ _ Hstep) as (Hst & Hlen & Hsel).
  split; [congruence|]. split; [congruence|]. intros n. by rewrite IH3, Hsel.
Qed.

Lemma rstep_target s s' h l :
  rstep s s' → heap s !! h = Some l →
  ∃ l', heap s' !! h = Some l' ∧ target l' = target l.
Proof.
  intros Hstep Hl.
  destruct Hstep as [h0 l0 l0' Hh Ht | n ls ls' Hn Hsub | n sel ls' Hn Hsub]; cbn; eauto.
  eapply heap_flag_target; eauto.
Qed.

Lemma rsteps_target s s' h l :
  rtc rstep s s' → heap s !! h = Some l →
  ∃ l', heap s' !! h = Some l' ∧ target l' = target l.
Proof.
  intros Hsteps. revert l. induction Hsteps as [|s s1 s2 Hstep _ IH]; intros l Hl; [eauto|].
  destruct (rstep_target _ _ _ _ Hstep Hl) as (l1 & Hl1 & Ht1).
  destruct (IH _ Hl1) as (l2 & Hl2 & Ht2). exists l2. split; [done|congruence].
Qed.

Lemma rsteps_steps s s' : rtc rstep s s' → rtc step s s'.
Proof. induction 1; [done|]. eapply rtc_l; [by apply step_remove|done]. Qed.

Lemma step_registered s s' :
  step s s' →
  length (heap s) ≤ length (heap s')
  ∧ ∀ h, registered s' h → registered s h ∨ h = length (heap s).
Proof.
  intros Hstep.
  destruct Hstep as [s' Hr | name value | name item item' Hitem Hnd | name sel Hnil | l
                    | n ls l Hn Ht | n sel l Hn Ht].
  - destruct (rstep_frame _ _ Hr) as (_ & Hlen & _). split; [lia|].
    intros h Hreg. left. by eapply rstep_registered.
  - split.
    + unfold init_item. by case_bool_decide.
    + intros h Hreg. left. unfold init_item in Hreg. case_bool_decide; [done|].
      destruct Hreg as [(m & ls0 & Hm & Hin)|Hreg]; [|by right].
      cbn in Hm. apply lookup_insert_Some in Hm as [[<- <-]|[Hne Hm]].
      * by apply elem_of_nil in Hin.
      * left. eauto.
  - split; [done|]. intros h Hreg. by left.
  - split; [done|]. intros h Hreg. left.
    destruct Hreg as [Hreg|(m & sel0 & Hm & Hin)]; [by left|].
    cbn in Hm. apply lookup_insert_Some in Hm as [[<- <-]|[Hne Hm]].
    + rewrite Hnil in Hin. by apply elem_of_nil in Hin.
    + right. eauto.
  - split; [cbn; rewrite length_app; lia|]. intros h Hreg. by left.
  - split; [cbn; rewrite length_app; lia|]. intros h Hreg.
    destruct Hreg as [(m & ls0 & Hm & Hin)|Hreg]; [|by left; right].
    cbn in Hm. apply lookup_insert_Some in Hm as [[<- <-]|[Hne Hm]].
    + apply elem_of_app in Hin as [Hin|Hin].
      * left. left. eauto.
      * right. by apply list_elem_of_singleton in Hin.
    + left. left. eauto.
  - split; [cbn; rewrite length_app; lia|]. intros h Hreg.
    destruct Hreg as [Hreg|(m & sel0 & Hm & Hin)]; [by left; left|].
    cbn in Hm. apply lookup_insert_Some in Hm as [[<- <-]|[Hne Hm]].
    + cbn in Hin. apply elem_of_app in Hin as [Hin|Hin].
      * left. right. eauto.
      * right. by apply list_elem_of_singleton in Hin.
    + left. right. eauto.
Qed.

Lemma dropped_step h s s' : step s s' → dropped h s → dropped h s'.
Proof.
  intros Hstep [Hlen Hreg]. destruct (step_registered _ _ Hstep) as [Hle Hsub].
  split; [lia|]. intros Hreg'. destruct (Hsub _ Hreg') as [? | ->]; [done|lia].
Qed.

(** ** Running the primitives *)

Lemma read_store_run name s :
  read_store name s =
  (match store s !! name with Some x => Ret x | None => Throw TypeError end, s, []).
Proof. unfold read_store. rewrite bind_unfold. cbn. by destruct (store s !! name). Qed.

Lemma read_listeners_run name s :
  read_listeners name s =
  (match listeners s !! name with Some x => Ret x | None => Throw TypeError end, s, []).
Proof. unfold read_listeners. rewrite bind_unfold. cbn. by destruct (listeners s !! name). Qed.

Lemma read_selector_run name s :
  read_selector name s =
  (match selectors s !! name with Some x => Ret x | None => Throw TypeError end, s, []).
Proof. unfold read_selector. rewrite bind_unfold. cbn. by destruct (selectors s !! name). Qed.

Lemma deref_run h s :
  deref h s =
  (match heap s !! h with Some x => Ret x | None => Throw TypeError end, s, []).
Proof. unfold deref. rewrite bind_unfold. cbn. by destruct (heap s !! h). Qed.

Lemma alloc_run l s :
  alloc l s =
  (Ret (length (heap s)),
   {| store := store s; listeners := listeners s; selectors := selectors s;
      heap := heap s ++ [l] |}, []).
Proof. reflexivity. Qed.

(** ** [remove] *)

Lemma filter_not_removed_run ls s :
  ∃ o, filter_not_removed ls s = (o, s, [])
       ∧ ∀ ls', o = Ret ls' →
           sublist ls' ls
           ∧ ∀ h l, h ∈ ls' → heap s !! h = Some l → _removed l = false.
Proof.
  induction ls as [|h ls (o & Hrun & Hpost)].
  - exists (Ret []). split; [done|]. intros ls' [= <-]. split; [done|].
    intros h l Hin. by apply elem_of_nil in Hin.
  - cbn [filter_not_removed]. rewrite bind_unfold, deref_run.
    destruct (heap s !! h) as [l|] eqn:Hl.
    + rewrite bind_unfold, Hrun. destruct o as [rest|e].
      * eexists. split; [reflexivity|]. intros ls' [= <-].
        destruct (Hpost rest eq_refl) as [Hsub Hlive].
        destruct (_removed l) eqn:Hflag; cbn [negb].
        -- split; [by apply sublist_cons|done].
        -- split; [by apply sublist_skip|].
           intros h' l' Hin Hl'. apply elem_of_cons in Hin as [-> | Hin]; [|eauto].
           congruence.
      * eexists. split; [reflexivity|]. intros ls' [=].
    + eexists. split; [reflexivity|]. intros ls' [=].
Qed.

Lemma remove_cases h s :
  ∃ o s', remove h s = (o, s', [])
    ∧ rtc rstep s s'
    ∧ (o = Ret tt →
       ∃ l, heap s !! h = Some l
            ∧ match target l with
              | DataTarget n => ∃ ls', listeners s' !! n = Some ls' ∧ h ∉ ls'
              | SelectorTarget n =>
                  ∃ sel', selectors s' !! n = Some sel' ∧ h ∉ _listeners sel'
              end).
Proof.
  unfold remove. rewrite bind_unfold, deref_run.
  destruct (heap s !! h) as [l|] eqn:Hl; [|by exists (Throw TypeError), s].
  rewrite bind_unfold.
  unfold write_heap at 1. rewrite bind_unfold. unfold get_state at 1, put_state at 1.
  set (s1 := {| store := store s; listeners := listeners s; selectors := selectors s;
                heap := <[h := {| onChange := onChange l; _removed := true;
                                  target := target l |}]> (heap s) |}).
  assert (Hstep1 : rstep s s1) by (by eapply rstep_flag).
  assert (Hflag : heap s1 !! h = Some {| onChange := onChange l; _removed := true;
                                         target := target l |}).
  { unfold s1. cbn. by rewrite list_lookup_insert_eq by (by eapply lookup_lt_Some). }
  cbn [app]. destruct (target l) as [n|n] eqn:Htarget.
  - rewrite bind_unfold, read_listeners_run.
    destruct (listeners s1 !! n) as [ls|] eqn:Hls.
    2:{ exists (Throw TypeError), s1. split; [done|]. split; [by apply rtc_once|done]. }
    rewrite bind_unfold.
    destruct (filter_not_removed_run ls s1) as (o & Hrun & Hpost). rewrite Hrun.
    destruct o as [ls'|e].
    2:{ exists (Throw e), s1. split; [done|]. split; [by apply rtc_once|done]. }
    destruct (Hpost ls' eq_refl) as [Hsub Hlive].
    eexists _, _. split; [reflexivity|]. split.
    + eapply rtc_l; [exact Hstep1|]. apply rtc_once. by eapply rstep_filter_data.
    + intros _. exists l. split; [done|]. rewrite Htarget. exists ls'. cbn.
      rewrite lookup_insert_eq. split; [done|]. intros Hin.
      by specialize (Hlive h _ Hin Hflag).
  - rewrite bind_unfold, read_selector_run.
    destruct (selectors s1 !! n) as [sel|] eqn:Hsel.
    2:{ exists (Throw TypeError), s1. split; [done|]. split; [by apply rtc_once|done]. }
    rewrite bind_unfold.
    destruct (filter_not_removed_run (_listeners sel) s1) as (o & Hrun & Hpost).
    rewrite Hrun. destruct o as [ls'|e].
    2:{ exists (Throw e), s1. split; [done|]. split; [by apply rtc_once|done]. }
    destruct (Hpost ls' eq_refl) as [Hsub Hlive].
    rewrite bind_unfold, read_selector_run, Hsel.
    eexists _, _. split; [reflexivity|]. split.
    + eapply rtc_l; [exact Hstep1|]. apply rtc_once. by eapply rstep_filter_selector.
    + intros _. exists l. split; [done|]. rewrite Htarget. eexists. cbn.
      rewrite lookup_insert_eq. split; [done|]. cbn. intros Hin.
      by specialize (Hlive h _ Hin Hflag).
Qed.

(** ** Invariants of every operation

    Any property of stores that the mutations keep, together with any
    property of traces that holds of the calls of registered listener
    objects, holds through every operation and every sequence of calls. *)

Section Safety.
Variable I : DataStore → Prop.
Variable T : list Event → Prop.
Hypothesis I_step : ∀ s s', step s s' → I s → I s'.
Hypothesis T_nil : T [].
Hypothesis T_app : ∀ t1 t2, T t1 → T t2 → T (t1 ++ t2).
Hypothesis T_call : ∀ s h, I s → registered s h → callable T h.

Lemma I_steps s s' : rtc step s s' → I s → I s'.
Proof. induction 1; eauto. Qed.

Lemma safe_ret {A} (a : A) : safe I T (ret a).
Proof. intros s HI. by split. Qed.

Lemma safe_throw {A} e : safe I T (throw (A := A) e).
Proof. intros s HI. by split. Qed.

Lemma safe_bind {A B} (m : M A) (f : A → M B) :
  safe I T m → (∀ a, safe I T (f a)) → safe I T (bind m f).
Proof.
  intros Hm Hf s HI. destruct (Hm s HI) as [HI1 HT1].
  rewrite bind_unfold. destruct (m s) as [[[a|e] s1] t1]; [|done].
  destruct (Hf a s1 HI1) as [HI2 HT2].
  destruct (f a s1) as [[o s2] t2]. split; [done|]. by apply T_app.
Qed.

(** A step that only reads hands what it learnt about the state to the
    rest. *)
Lemma safe_bind_read {A B} (m : M A) (f : A → M B) (Q : A → DataStore → Prop) :
  (∀ s, I s → ∃ o, m s = (o, s, []) ∧ ∀ a, o = Ret a → Q a s) →
  (∀ a s, I s → Q a s → I (state_of (f a s)) ∧ T (trace_of (f a s))) →
  safe I T (bind m f).
Proof.
  intros Hm Hf s HI. destruct (Hm s HI) as (o & Hrun & HQ).
  rewrite bind_unfold, Hrun. destruct o as [a|e]; [|done].
  destruct (Hf a s HI (HQ a eq_refl)) as [HI2 HT2].
  by destruct (f a s) as [[o s2] t2].
Qed.

Lemma safe_steps {A} (m : M A) :
  (∀ s, ∃ o s', m s = (o, s', []) ∧ rtc step s s') → safe I T m.
Proof.
  intros Hm s HI. destruct (Hm s) as (o & s' & -> & Hsteps).
  split; [by eapply I_steps|done].
Qed.

Lemma safe_at_bind {A B} (m : M A) (f : A → M B) s a s1 t1 :
  m s = (Ret a, s1, t1) → I s1 → T t1 → (∀ a, safe I T (f a)) →
  I (state_of (bind m f s)) ∧ T (trace_of (bind m f s)).
Proof.
  intros Hrun HI1 HT1 Hf. rewrite (bind_Ret _ _ _ _ _ _ Hrun).
  destruct (Hf a s1 HI1) as [HI2 HT2]. split; [done|]. by apply T_app.
Qed.

Lemma safe_forEach {A} (l : list A) (f : A → M unit) :
  (∀ x, x ∈ l → safe I T (f x)) → safe I T (forEach l f).
Proof.
  induction l as [|x l IH]; intros Hf; [apply safe_ret|].
  cbn [forEach]. apply safe_bind.
  - apply Hf. by left.
  - intros _. apply IH. intros y Hy. apply Hf. by right.
Qed.

Lemma safe_remove h : safe I T (remove h).
Proof.
  apply safe_steps. intros s.
  destruct (remove_cases h s) as (o & s' & Hrun & Hsteps & _).
  exists o, s'. split; [done|]. by apply rsteps_steps.
Qed.

Lemma safe_invoke h cb args : callable T h → safe I T (invoke h cb args).
Proof.
  intros Hcall. unfold invoke. apply safe_bind.
  - intros s HI. by split; [|apply Hcall].
  - intros _. apply safe_forEach. intros h' _. apply safe_remove.
Qed.

Lemma safe_deref_then {B} h (f : Listener → M B) :
  (∀ l, safe I T (f l)) → safe I T (bind (deref h) f).
Proof.
  intros Hf. apply (safe_bind_read _ _ (λ _ _, True)).
  - intros s _. rewrite deref_run. eauto.
  - intros l s HI _. by apply Hf.
Qed.

Lemma safe_getSelector name : safe I T (getSelector name).
Proof. intros s HI. by rewrite getSelector_run. Qed.

Lemma safe_notify_data ls data prevData :
  (∀ h, h ∈ ls → callable T h) → safe I T (notify_data ls data prevData).
Proof.
  intros Hcall. apply safe_forEach. intros h Hh.
  apply safe_deref_then. intros l. by apply safe_invoke, Hcall.
Qed.

Lemma safe_notify_selector selectorName ls :
  (∀ h, h ∈ ls → callable T h) → safe I T (notify_selector selectorName ls).
Proof.
  intros Hcall. apply safe_forEach. intros h Hh.
  apply safe_deref_then. intros l. apply safe_bind; [apply safe_getSelector|].
  intros v. by apply safe_invoke, Hcall.
Qed.

Lemma safe_get name : safe I T (get name).
Proof.
  unfold get. destruct (Z.eqb _ _); [apply safe_getSelector|].
  intros s HI. rewrite bind_unfold. cbn. by destruct (store s !! name).
Qed.

Lemma safe_initDataStore data sels : safe I T (initDataStore data sels).
Proof.
  intros s HI. rewrite initDataStore_run. split; [|done]. cbn.
  assert (HI1 : I (foldl (λ s entry, init_item entry.1 entry.2 s) s data)).
  { clear -HI I_step. revert s HI. induction data as [|[k v] data IH]; intros s HI; [done|].
    cbn [foldl]. apply IH. eapply I_step; [apply step_init|done]. }
  revert HI1. generalize (foldl (λ s entry, init_item entry.1 entry.2 s) s data).
  clear -I_step. induction sels as [|n sels IH]; intros s HI; [done|].
  cbn [foldl]. apply IH. eapply I_step; [by apply step_selector|done].
Qed.

Lemma safe_update name data : safe I T (discard (update name data)).
Proof.
  unfold discard. apply safe_bind; [|intros; apply safe_ret].
  unfold update. apply safe_bind.
  { apply safe_steps. intros s. eexists _, _. split; [apply _initDataStoreItem_run|].
    apply rtc_once, step_init. }
  intros _. apply (safe_bind_read _ _ (λ item s, store s !! name = Some item)).
  { intros s _. rewrite read_store_run.
    destruct (store s !! name) as [item|] eqn:Hitem.
    - eexists. split; [done|]. by intros a [= <-].
    - eexists. split; [done|]. by intros a [=]. }
  intros item s HI Hitem.
  destruct (_compareValuesDiff data (_data item)) as [diff|e].
  2:{ by rewrite (bind_Throw _ _ s e s []) by done. }
  rewrite (bind_Ret _ _ s diff s []) by done.
  unfold state_of at 1, trace_of at 1. cbn [fst snd app].
  destruct diff; cbn [negb]; [|done].
  eapply safe_at_bind; [reflexivity| | |].
  - eapply I_step; [|exact HI]. by eapply step_item.
  - done.
  - intros _. apply (safe_bind_read _ _ (λ ls _, ∀ h, h ∈ ls → callable T h)).
    { intros s' HI'. rewrite read_listeners_run.
      destruct (listeners s' !! name) as [ls|] eqn:Hls.
      - eexists. split; [done|]. intros a [= <-] h Hh.
        eapply T_call; [exact HI'|]. left. eauto.
      - eexists. split; [done|]. by intros a [=]. }
    intros ls s' HI' Hcall.
    apply (safe_bind (notify_data ls data (_data item))); [by apply safe_notify_data| |done].
    intros _. apply safe_bind; [|intros; apply safe_ret].
    apply safe_forEach. intros selectorName _.
    apply (safe_bind_read _ _ (λ sel _, ∀ h, h ∈ _listeners sel → callable T h)).
    { intros s'' HI''. rewrite read_selector_run.
      destruct (selectors s'' !! selectorName) as [sel|] eqn:Hsel.
      - eexists. split; [done|]. intros a [= <-] h Hh.
        eapply T_call; [exact HI''|]. right. eauto.
      - eexists. split; [done|]. by intros a [=]. }
    intros sel s'' HI'' Hcall'. by apply safe_notify_selector.
Qed.
Lemma safe_defineSelector selectorName depNames transformer :
  safe I T (defineSelector selectorName depNames transformer).
Proof.
  unfold defineSelector. destruct selectorName; try apply safe_throw.
  apply safe_bind.
  - apply safe_forEach. intros dep _. unfold register_dependent.
    apply (safe_bind_read _ _ (λ item s, store s !! dep = Some item)).
    { intros s0 _. rewrite read_store_run.
      destruct (store s0 !! dep) as [item|] eqn:Hitem.
      - eexists. split; [done|]. by intros a [= <-].
      - eexists. split; [done|]. by intros a [=]. }
    intros item s0 HI Hitem. case_bool_decide as Hnew; [|done].
    split; [|done]. eapply I_step; [|exact HI]. eapply step_item; [done|].
    cbn. intros Hnd. apply NoDup_app. split; [done|]. split; [|apply NoDup_singleton].
    intros x Hx Hx'. apply list_elem_of_singleton in Hx' as ->. done.
  - intros _. apply safe_steps. intros s0. eexists _, _.
    split; [apply write_selector_run|]. by apply rtc_once, step_selector.
Qed.

Lemma safe_addSelectorListener selectorName onChange executeImmediately :
  safe I T (discard (addSelectorListener selectorName onChange executeImmediately)).
Proof.
  unfold discard. apply safe_bind; [|intros; apply safe_ret].
  unfold addSelectorListener. intros s HI.
  rewrite (bind_Ret _ _ _ _ _ _ (alloc_run _ s)).
  unfold state_of at 1, trace_of at 1. cbn [fst snd app].
  set (l := {| onChange := onChange; _removed := false;
               target := SelectorTarget (qualify selectorName) |}).
  set (s1 := {| store := store s; listeners := listeners s; selectors := selectors s;
                heap := heap s ++ [l] |}).
  assert (HI1 : I s1) by (eapply I_step; [apply step_alloc|done]).
  destruct (selectors s !! qualify selectorName) as [sel|] eqn:Hsel.
  2:{ rewrite (bind_Throw _ _ s1 TypeError s1 []); [done|].
      rewrite read_selector_run. unfold s1. cbn. by rewrite Hsel. }
  rewrite (bind_Ret _ _ s1 sel s1 [])
    by (rewrite read_selector_run; unfold s1; cbn; by rewrite Hsel).
  unfold state_of at 1, trace_of at 1. cbn [fst snd app].
  set (s2 := {| store := store s; listeners := listeners s;
                selectors := <[qualify selectorName :=
                                 {| _transformer := _transformer sel; _deps := _deps sel;
                                    _listeners := _listeners sel ++ [length (heap s)] |}]>
                               (selectors s);
                heap := heap s ++ [l] |}).
  assert (HI2 : I s2) by (eapply I_step; [by eapply step_subscribe_selector|done]).
  assert (Hcall : callable T (length (heap s))).
  { eapply T_call; [exact HI2|]. right. eexists _, _. split.
    - unfold s2. cbn. apply lookup_insert_eq.
    - cbn. apply elem_of_app. right. by left. }
  eapply (safe_at_bind _ _ s1 tt s2 []); [reflexivity|done|done|].
  intros _. apply safe_bind; [|intros; apply safe_ret].
  destruct executeImmediately; [|apply safe_ret].
  apply safe_bind; [apply safe_getSelector|]. intros v. by apply safe_invoke.
Qed.

Lemma safe_addDataListener targetName onChange executeImmediately :
  safe I T (discard (addDataListener targetName onChange executeImmediately)).
Proof.
  unfold discard. apply safe_bind; [|intros; apply safe_ret].
  unfold addDataListener. intros s HI.
  rewrite (bind_Ret _ _ _ _ _ _ (_initDataStoreItem_run _ _ s)).
  unfold state_of at 1, trace_of at 1. cbn [fst snd app].
  assert (HI0 : I (init_item targetName VUndefined s))
    by (eapply I_step; [apply step_init|done]).
  revert HI0. generalize (init_item targetName VUndefined s). clear s HI. intros s HI.
  rewrite (bind_Ret _ _ _ _ _ _ (alloc_run _ s)).
  unfold state_of at 1, trace_of at 1. cbn [fst snd app].
  set (l := {| onChange := onChange; _removed := false;
               target := DataTarget targetName |}).
  set (s1 := {| store := store s; listeners := listeners s; selectors := selectors s;
                heap := heap s ++ [l] |}).
  assert (HI1 : I s1) by (eapply I_step; [apply step_alloc|done]).
  destruct (listeners s !! targetName) as [ls|] eqn:Hls.
  2:{ rewrite (bind_Throw _ _ s1 TypeError s1 []); [done|].
      rewrite read_listeners_run. unfold s1. cbn. by rewrite Hls. }
  rewrite (bind_Ret _ _ s1 ls s1 [])
    by (rewrite read_listeners_run; unfold s1; cbn; by rewrite Hls).
  unfold state_of at 1, trace_of at 1. cbn [fst snd app].
  set (s2 := {| store := store s;
                listeners := <[targetName := ls ++ [length (heap s)]]> (listeners s);
                selectors := selectors s; heap := heap s ++ [l] |}).
  assert (HI2 : I s2) by (eapply I_step; [by eapply step_subscribe_data|done]).
  assert (Hcall : callable T (length (heap s))).
  { eapply T_call; [exact HI2|]. left. eexists _, _. split.
    - unfold s2. cbn. apply lookup_insert_eq.
    - apply elem_of_app. right. by left. }
  eapply (safe_at_bind _ _ s1 tt s2 []); [reflexivity|done|done|].
  intros _. apply safe_bind; [|intros; apply safe_ret].
  destruct executeImmediately; [|apply safe_ret].
  apply (safe_bind_read _ _ (λ _ _, True)).
  - intros s0 _. rewrite read_store_run. eauto.
  - intros item s0 HI0 _. by apply safe_invoke.
Qed.

Lemma safe_exec c : safe I T (exec c).
Proof.
  destruct c; cbn [exec].
  - apply safe_initDataStore.
  - apply safe_update.
  - apply safe_bind; [apply safe_get|intros; apply safe_ret].
  - apply safe_bind; [apply safe_getSelector|intros; apply safe_ret].
  - apply safe_defineSelector.
  - apply safe_addSelectorListener.
  - apply safe_addDataListener.
  - apply safe_remove.
Qed.

Lemma safe_run cs s : I s → I (run cs s).1 ∧ T (run cs s).2.
Proof.
  revert s. induction cs as [|c cs IH]; intros s HI; [done|].
  cbn [run]. destruct (safe_exec c s HI) as [HI1 HT1].
  destruct (exec c s) as [[o s1] t1]. destruct (IH s1 HI1) as [HI2 HT2].
  destruct (run cs s1) as [s2 t2]. split; [done|]. by apply T_app.
Qed.
End Safety.

Lemma wf_run cs s : wf s → wf (run cs s).1.
Proof.
  intros Hwf. by apply (safe_run wf (λ _, True) wf_step I (λ _ _ _ _, I) (λ _ _ _ _ _, I)).
Qed.

(** A listener object that is in no array is never called again. *)
Lemma dropped_never_called h cs s : dropped h s → never_calls h (run cs s).2.
Proof.
  intros Hdrop.
  apply (safe_run (dropped h) (never_calls h)); [| | | |done].
  - intros s1 s2. apply dropped_step.
  - constructor.
  - intros t1 t2. apply Forall_app_2.
  - intros s1 h' [_ Hnot] Hreg args. apply Forall_singleton. cbn. by intros ->.
Qed.

(** ** Notification passes *)

Lemma forEach_remove_run hs s :
  ∃ o s', forEach hs remove s = (o, s', []) ∧ rtc rstep s s'.
Proof.
  revert s. induction hs as [|h hs IH]; intros s; [by exists (Ret tt), s|].
  cbn [forEach]. rewrite bind_unfold.
  destruct (remove_cases h s) as (o & s1 & -> & Hsteps & _).
  destruct o as [[]|e]; [|by eauto].
  destruct (IH s1) as (o' & s' & -> & Hsteps'). exists o', s'. split; [done|].
  by etrans.
Qed.

Lemma invoke_run h cb args s :
  ∃ o s', invoke h cb args s = (o, s', [Call h args]) ∧ rtc rstep s s'.
Proof.
  unfold invoke. rewrite bind_unfold. unfold emit at 1.
  destruct (forEach_remove_run (calls_remove cb) s) as (o & s' & -> & Hsteps).
  by exists o, s'.
Qed.

Lemma notify_data_run ls data prevData s :
  ∃ o s' t, notify_data ls data prevData s = (o, s', t)
    ∧ rtc rstep s s'
    ∧ (o = Ret tt → t = (λ h, Call h [data; prevData]) <$> ls).
Proof.
  revert s. induction ls as [|h ls IH]; intros s; [by exists (Ret tt), s, []|].
  unfold notify_data. cbn [forEach]. rewrite bind_unfold, bind_unfold, deref_run.
  destruct (heap s !! h) as [l|]; [|by exists (Throw TypeError), s, []].
  destruct (invoke_run h (onChange l) [data; prevData] s) as (o1 & s1 & -> & Hsteps1).
  destruct o1 as [[]|e]; [|by exists (Throw e), s1, [Call h [data; prevData]]].
  destruct (IH s1) as (o2 & s2 & t2 & Hrun & Hsteps2 & Htrace).
  unfold notify_data in Hrun. rewrite Hrun.
  eexists _, _, _. split; [reflexivity|]. split; [by etrans|].
  intros Ho. cbn. by rewrite (Htrace Ho).
Qed.

Lemma notify_selector_run selectorName ls s :
  ∃ o s' t, notify_selector selectorName ls s = (o, s', t)
    ∧ rtc rstep s s'
    ∧ (∀ v, selector_result s selectorName = Ret v → o = Ret tt →
            t = (λ h, Call h [v]) <$> ls).
Proof.
  revert s. induction ls as [|h ls IH]; intros s; [by exists (Ret tt), s, []|].
  unfold notify_selector. cbn [forEach]. rewrite bind_unfold, bind_unfold, deref_run.
  destruct (heap s !! h) as [l|]; [|by exists (Throw TypeError), s, []].
  rewrite bind_unfold, getSelector_run.
  destruct (selector_result s selectorName) as [v|e] eqn:Hv;
    [|by exists (Throw e), s, []].
  destruct (invoke_run h (onChange l) [v] s) as (o1 & s1 & -> & Hsteps1).
  destruct o1 as [[]|e]; [|by exists (Throw e), s1, [Call h [v]]].
  destruct (rsteps_frame _ _ Hsteps1) as (_ & _ & Hsel).
  destruct (IH s1) as (o2 & s2 & t2 & Hrun & Hsteps2 & Htrace).
  unfold notify_selector in Hrun. rewrite Hrun.
  eexists _, _, _. split; [reflexivity|]. split; [by etrans|].
  intros v0 [= <-] Ho. cbn. rewrite (Htrace v); [done| |done]. by rewrite Hsel.
Qed.

Lemma notify_selectors_run (names : list string) s :
  ∃ o s' t,
    forEach names (λ selectorName,
      let! sel := read_selector selectorName in
      notify_selector selectorName (_listeners sel)) s = (o, s', t)
    ∧ rtc rstep s s'.
Proof.
  revert s. induction names as [|n names IH]; intros s; [by exists (Ret tt), s, []|].
  cbn [forEach]. rewrite bind_unfold, bind_unfold, read_selector_run.
  destruct (selectors s !! n) as [sel|]; [|by exists (Throw TypeError), s, []].
  destruct (notify_selector_run n (_listeners sel) s) as (o1 & s1 & t1 & -> & Hsteps1 & _).
  destruct o1 as [[]|e]; [|by exists (Throw e), s1, ([] ++ t1)].
  destruct (IH s1) as (o2 & s2 & t2 & -> & Hsteps2).
  eexists _, _, _. split; [reflexivity|]. by etrans.
Qed.

Lemma remove_dropped h s :
  wf s → outcome_of (remove h s) = Ret tt → dropped h (state_of (remove h s)).
Proof.
  intros Hwf Hret.
  destruct (remove_cases h s) as (o & s' & Hrun & Hsteps & Hpost).
  rewrite Hrun in *. cbn in Hret. cbn [state_of fst snd].
  destruct (Hpost Hret) as (l & Hl & Hlist).
  destruct (rsteps_frame _ _ Hsteps) as (_ & Hlen & _).
  destruct (rsteps_target _ _ _ _ Hsteps Hl) as (l' & Hl' & Ht').
  pose proof (wf_steps _ _ (rsteps_steps _ _ Hsteps) Hwf) as Hwf'.
  split; [rewrite Hlen; by eapply lookup_lt_Some|].
  intros [(m & ls0 & Hm & Hin)|(m & sel0 & Hm & Hin)].
  - destruct (wf_data_target _ Hwf' _ _ _ Hm Hin) as (l1 & Hl1 & Ht1).
    assert (target l = DataTarget m) as Htl by congruence.
    rewrite Htl in Hlist. destruct Hlist as (ls' & Hls' & Hnot). congruence.
  - destruct (wf_selector_target _ Hwf' _ _ _ Hm Hin) as (l1 & Hl1 & Ht1).
    assert (target l = SelectorTarget m) as Htl by congruence.
    rewrite Htl in Hlist. destruct Hlist as (sel' & Hsel' & Hnot). congruence.
Qed.

(** C6. A notification pass that returns has called exactly the listener
    objects of the array it started on, each at its place in the array,
    whatever handles the callbacks removed on the way: none is skipped and
    none is called a second time; and this holds of the pass over the
    listeners of a value and of the pass over the listeners of a selector.
    Once [remove()] has returned, no later call on the store, [update]
    included, calls the removed listener object again. *)
Theorem remove_during_and_after_notification (s : DataStore) :
  (∀ ls data prevData,
     outcome_of (notify_data ls data prevData s) = Ret tt →
     trace_of (notify_data ls data prevData s) = (λ h, Call h [data; prevData]) <$> ls)
  ∧ (∀ selectorName ls v,
       selector_result s selectorName = Ret v →
       outcome_of (notify_selector selectorName ls s) = Ret tt →
       trace_of (notify_selector selectorName ls s) = (λ h, Call h [v]) <$> ls)
  ∧ (∀ h, wf s → outcome_of (remove h s) = Ret tt →
       ∀ cs, never_calls h (run cs (state_of (remove h s))).2).
Proof.
  split; [|split].
  - intros ls data prevData Hret.
    destruct (notify_data_run ls data prevData s) as (o & s' & t & Hrun & _ & Htrace).
    rewrite Hrun in *. by apply Htrace.
  - intros selectorName ls v Hv Hret.
    destruct (notify_selector_run selectorName ls s) as (o & s' & t & Hrun & _ & Htrace).
    rewrite Hrun in *. by apply Htrace.
  - intros h Hwf Hret cs. by apply dropped_never_called, remove_dropped.
Qed.

Lemma wf_store_removing : wf store_removing.
Proof. apply wf_run, wf_constructor. Qed.

(** In [store_removing] the callback of listener 0 removes listener 1: the
    pass over [[0; 1]] still calls both, in order; after it listener 1 is
    out of the array, and once [remove()] was called on listener 1 an
    [update] calls listener 0 only. *)
Lemma remove_during_and_after_notification_witness :
  listeners store_removing !! "x" = Some [0; 1]
  ∧ trace_of (notify_data [0; 1] (VNumber 5) (VNumber 1) store_removing)
    = [Call 0 [VNumber 5; VNumber 1]; Call 1 [VNumber 5; VNumber 1]]
  ∧ listeners (state_of (notify_data [0; 1] (VNumber 5) (VNumber 1) store_removing)) !! "x"
    = Some [0]
  ∧ trace_of (notify_selector "selector::double" [0] store_double) = [Call 0 [VNumber 2]]
  ∧ never_calls 1 (run [CUpdate "x" (VNumber 7)] (state_of (remove 1 store_removing))).2
  ∧ (run [CUpdate "x" (VNumber 7)] (state_of (remove 1 store_removing))).2
    = [Call 0 [VNumber 7; VNumber 1]].
Proof.
  destruct (remove_during_and_after_notification store_removing) as (Hdata & _ & Hafter).
  destruct (remove_during_and_after_notification store_double) as (_ & Hsel & _).
  split; [by_computation|].
  split; [apply (Hdata [0; 1] (VNumber 5) (VNumber 1)); by_computation|].
  split; [by_computation|].
  split; [apply (Hsel "selector::double" [0] (VNumber 2)); by_computation|].
  split; [|by_computation].
  apply (Hafter 1); [apply wf_store_removing | by_computation].
Defined.

(** ** Redefining a selector *)

Lemma register_dependents_run selectorName deps s :
  (∀ d, d ∈ deps → is_Some (store s !! d)) →
  ∃ s1, forEach deps (register_dependent selectorName) s = (Ret tt, s1, [])
        ∧ listeners s1 = listeners s ∧ selectors s1 = selectors s ∧ heap s1 = heap s.
Proof.
  revert s. induction deps as [|dep deps IH]; intros s Hknown; [by exists s|].
  cbn [forEach]. rewrite bind_unfold.
  destruct (Hknown dep) as [item Hitem]; [by left|].
  unfold register_dependent at 1. rewrite bind_unfold, read_store_run, Hitem.
  set (s1 := if bool_decide (selectorName ∉ _selectors item)
             then {| store := <[dep := {| _data := _data item;
                                          _selectors := _selectors item ++ [selectorName] |}]>
                                (store s);
                     listeners := listeners s; selectors := selectors s; heap := heap s |}
             else s).
  assert (Hstep : (if bool_decide (selectorName ∉ _selectors item)
                   then write_store dep {| _data := _data item;
                                           _selectors := _selectors item ++ [selectorName] |}
                   else ret tt) s = (Ret tt, s1, [])).
  { unfold s1. by case_bool_decide. }
  rewrite Hstep. cbn [app].
  assert (Hframe : listeners s1 = listeners s ∧ selectors s1 = selectors s
                   ∧ heap s1 = heap s ∧ ∀ d, is_Some (store s !! d) → is_Some (store s1 !! d)).
  { unfold s1. case_bool_decide; [|done]. cbn. repeat split.
    intros d Hd. apply lookup_insert_is_Some'. by right. }
  destruct Hframe as (Hls & Hsel & Hheap & Hdom).
  destruct (IH s1) as (s2 & -> & Hls2 & Hsel2 & Hheap2).
  { intros d Hd. apply Hdom, Hknown. by right. }
  exists s2. split; [done|]. split; [congruence|]. split; congruence.
Qed.

(** C9. When every dependency named is a known value, [defineSelector]
    under the name of a selector that has listeners returns and leaves
    under the qualified name a new entry, with the new transformer and
    dependencies and no listener; each listener object of the old entry is
    then in no array at all and no later call on the store, [update]
    included, calls it again. *)
Theorem defineSelector_drops_listeners
    (s : DataStore) (name : string) (depNames : DepNames)
    (transformer : list Value → Value) (sel : Selector) :
  wf s →
  selectors s !! qualify name = Some sel →
  (∀ d, d ∈ as_array depNames → is_Some (store s !! d)) →
  outcome_of (defineSelector (VString name) depNames transformer s) = Ret tt
  ∧ selectors (state_of (defineSelector (VString name) depNames transformer s))
      !! qualify name
    = Some {| _transformer := transformer; _deps := as_array depNames; _listeners := [] |}
  ∧ ∀ h, h ∈ _listeners sel →
      dropped h (state_of (defineSelector (VString name) depNames transformer s))
      ∧ ∀ cs, never_calls h
                (run cs (state_of (defineSelector (VString name) depNames transformer s))).2.
Proof.
  intros Hwf Hsel Hknown. unfold defineSelector. cbn zeta.
  destruct (register_dependents_run (qualify name) (as_array depNames) s Hknown)
    as (s1 & Hrun & Hls & Hsels & Hheap).
  rewrite (bind_Ret _ _ _ _ _ _ Hrun), write_selector_run.
  unfold outcome_of, state_of. cbn [fst snd].
  split; [done|]. split; [cbn; apply lookup_insert_eq|].
  intros h Hh.
  assert (Hdrop : dropped h (put_selector (qualify name)
            {| _transformer := transformer; _deps := as_array depNames; _listeners := [] |} s1)).
  { destruct (wf_selector_target _ Hwf _ _ _ Hsel Hh) as (l & Hl & Ht).
    split; [cbn; rewrite Hheap; by eapply lookup_lt_Some|].
    intros [(m & ls0 & Hm & Hin)|(m & sel0 & Hm & Hin)]; cbn in Hm.
    - rewrite Hls in Hm.
      destruct (wf_data_target _ Hwf _ _ _ Hm Hin) as (l1 & Hl1 & Ht1). congruence.
    - apply lookup_insert_Some in Hm as [[<- <-]|[Hne Hm]].
      + by apply elem_of_nil in Hin.
      + rewrite Hsels in Hm.
        destruct (wf_selector_target _ Hwf _ _ _ Hm Hin) as (l1 & Hl1 & Ht1). congruence. }
  split; [done|]. intros cs. by apply dropped_never_called.
Qed.

Lemma wf_store_double : wf store_double.
Proof. apply wf_run, wf_constructor. Qed.

(** Listener 0 of [store_double] listens to the selector [double]; after
    the selector is defined again, an [update] of [x] calls the two
    listeners of [x] and not listener 0. *)
Lemma defineSelector_drops_listeners_witness :
  (_listeners <$> selectors store_double !! "selector::double") = Some [0]
  ∧ trace_of (update "x" (VNumber 5) store_double)
    = [Call 1 [VNumber 5; VNumber 1]; Call 2 [VNumber 5; VNumber 1]; Call 0 [VNumber 10]]
  ∧ never_calls 0
      (run [CUpdate "x" (VNumber 5)]
         (state_of (defineSelector (VString "double") (OneName "x") double store_double))).2
  ∧ (run [CUpdate "x" (VNumber 5)]
       (state_of (defineSelector (VString "double") (OneName "x") double store_double))).2
    = [Call 1 [VNumber 5; VNumber 1]; Call 2 [VNumber 5; VNumber 1]].
Proof.
  split; [by_computation|]. split; [by_computation|]. split; [|by_computation].
  destruct (defineSelector_drops_listeners store_double "double" (OneName "x") double
              {| _transformer := double; _deps := ["x"]; _listeners := [0] |})
    as (_ & _ & Hdrop).
  - apply wf_store_double.
  - by_computation.
  - intros d Hd. apply list_elem_of_singleton in Hd as ->. eexists. by_computation.
  - apply (Hdrop 0). by left.
Defined.

(** ** Subscribing with [executeImmediately] *)

Lemma init_item_current name s :
  ∃ item, store (init_item name VUndefined s) !! name = Some item
          ∧ _data item = current_value s name.
Proof.
  unfold init_item, current_value. case_bool_decide as Hname.
  - destruct Hname as [item Hitem]. rewrite Hitem. eauto.
  - apply eq_None_not_Some in Hname. rewrite Hname. cbn.
    rewrite lookup_insert_eq. eauto.
Qed.

Lemma init_item_listeners name value s :
  wf s → is_Some (listeners (init_item name value s) !! name).
Proof.
  intros Hwf. unfold init_item. case_bool_decide as Hname.
  - by apply (wf_listeners _ Hwf).
  - cbn. rewrite lookup_insert_eq. eauto.
Qed.

Lemma init_item_heap name value s : heap (init_item name value s) = heap s.
Proof. unfold init_item. by case_bool_decide. Qed.

Lemma immediate_call_run {A} (m : M A) (k : A → Value) h cb s a :
  m s = (Ret a, s, []) →
  trace_of ((let! _ := (let! x := m in invoke h cb [k x]) in ret h) s) = [Call h [k a]].
Proof.
  intros Hm. rewrite (trace_bind_ret _ (λ _, h)), (bind_Ret_nil _ _ _ _ _ Hm).
  by destruct (invoke_run h cb [k a] s) as (o & s' & -> & _).
Qed.

Lemma addDataListener_trace name cb imm s :
  wf s →
  trace_of (addDataListener name cb imm s)
  = if imm then [Call (length (heap s)) [current_value s name]] else [].
Proof.
  intros Hwf. unfold addDataListener.
  rewrite (bind_Ret_nil _ _ _ _ _ (_initDataStoreItem_run _ _ s)).
  destruct (init_item_current name s) as (item & Hitem & Hdata).
  destruct (init_item_listeners name VUndefined s Hwf) as [ls Hls].
  rewrite <- (init_item_heap name VUndefined s), <- Hdata. clear Hdata.
  revert Hitem Hls. generalize (init_item name VUndefined s). clear s Hwf.
  intros s Hitem Hls.
  rewrite (bind_Ret_nil _ _ _ _ _ (alloc_run _ s)).
  erewrite bind_Ret_nil; [|by rewrite read_listeners_run; cbn; rewrite Hls].
  erewrite bind_Ret_nil; [|reflexivity].
  destruct imm; [|done].
  apply (immediate_call_run (read_store name) _data).
  rewrite read_store_run. cbn. by rewrite Hitem.
Qed.

Lemma addSelectorListener_trace name cb imm v s :
  selector_result s (qualify name) = Ret v →
  trace_of (addSelectorListener name cb imm s)
  = if imm then [Call (length (heap s)) [v]] else [].
Proof.
  intros Hv. unfold addSelectorListener.
  rewrite (bind_Ret_nil _ _ _ _ _ (alloc_run _ s)).
  destruct (selectors s !! qualify name) as [sel|] eqn:Hsel.
  2:{ unfold selector_result in Hv. by rewrite Hsel in Hv. }
  erewrite bind_Ret_nil; [|by rewrite read_selector_run; cbn; rewrite Hsel].
  erewrite bind_Ret_nil; [|reflexivity].
  destruct imm; [|done].
  apply (immediate_call_run (getSelector (qualify name)) id).
  rewrite getSelector_run. f_equal. f_equal. rewrite <- Hv.
  unfold selector_result. cbn. rewrite lookup_insert_eq, Hsel. cbn.
  by erewrite dep_data_store.
Qed.

Lemma subscribe_returns_new_object {A} (m : M A) (h h' : nat) s :
  outcome_of ((let! _ := m in ret h) s) = Ret h' → h' = h.
Proof.
  rewrite bind_unfold. destruct (m s) as [[[a|e] s1] t1]; cbn; congruence.
Qed.

(** C7. In a well-formed store, [addDataListener] with
    [executeImmediately] true makes one call of the new listener, before
    returning, with the value stored under the name ([undefined] for a
    name it has just created), and with [executeImmediately] false makes
    no call; [addSelectorListener] on a selector whose value can be
    computed does the same with the value computed at that moment.  The
    listener object returned is the one that was called. *)
Theorem executeImmediately_calls_once
    (s : DataStore) (name : string) (onChange : Callback) :
  wf s →
  (trace_of (addDataListener name onChange true s)
     = [Call (length (heap s)) [current_value s name]]
   ∧ trace_of (addDataListener name onChange false s) = []
   ∧ ∀ imm h, outcome_of (addDataListener name onChange imm s) = Ret h →
              h = length (heap s))
  ∧ (∀ v, selector_result s (qualify name) = Ret v →
       trace_of (addSelectorListener name onChange true s) = [Call (length (heap s)) [v]]
       ∧ trace_of (addSelectorListener name onChange false s) = []
       ∧ ∀ imm h, outcome_of (addSelectorListener name onChange imm s) = Ret h →
                  h = length (heap s)).
Proof.
  intros Hwf. split; [split; [|split]|].
  - by rewrite addDataListener_trace.
  - by rewrite addDataListener_trace.
  - intros imm h. unfold addDataListener.
    rewrite (bind_Ret_nil _ _ _ _ _ (_initDataStoreItem_run _ _ s)).
    rewrite <- (init_item_heap name VUndefined s).
    rewrite (bind_Ret_nil _ _ _ _ _ (alloc_run _ _)).
    rewrite bind_unfold.
    destruct (read_listeners name _) as [[[ls|e] s1] t1]; [|done].
    intros Hret.
    destruct (bind (write_listeners name _) _ s1) as [[o s2] t2] eqn:Hrest.
    cbn in Hret. subst o.
    rewrite bind_unfold in Hrest. cbn in Hrest.
    match type of Hrest with
    | (let (_, _) := ?r in _) = _ => destruct r as [[o3 s3] t3] eqn:Hr
    end.
    assert (o3 = Ret h) by congruence. subst o3.
    by apply (subscribe_returns_new_object _ _ _ _ (f_equal outcome_of Hr)).
  - intros v Hv. split; [|split].
    + by rewrite (addSelectorListener_trace _ _ _ v).
    + by rewrite (addSelectorListener_trace _ _ _ v).
    + intros imm h. unfold addSelectorListener.
      rewrite (bind_Ret_nil _ _ _ _ _ (alloc_run _ _)).
      rewrite bind_unfold.
      destruct (read_selector (qualify name) _) as [[[sel|e] s1] t1]; [|done].
      intros Hret.
      destruct (bind (write_selector (qualify name) _) _ s1) as [[o s2] t2] eqn:Hrest.
      cbn in Hret. subst o.
      rewrite bind_unfold in Hrest. cbn in Hrest.
      match type of Hrest with
      | (let (_, _) := ?r in _) = _ => destruct r as [[o3 s3] t3] eqn:Hr
      end.
      assert (o3 = Ret h) by congruence. subst o3.
      by apply (subscribe_returns_new_object _ _ _ _ (f_equal outcome_of Hr)).
Qed.

Lemma executeImmediately_calls_once_witness :
  trace_of (addDataListener "x" observer true store_double) = [Call 3 [VNumber 1]]
  ∧ trace_of (addDataListener "x" observer false store_double) = []
  ∧ trace_of (addSelectorListener "double" observer true store_double) = [Call 3 [VNumber 2]]
  ∧ trace_of (addSelectorListener "double" observer false store_double) = [].
Proof.
  destruct (executeImmediately_calls_once store_double "x" observer wf_store_double)
    as ((Hdata & Hdata' & _) & _).
  destruct (executeImmediately_calls_once store_double "double" observer wf_store_double)
    as (_ & Hsel).
  destruct (Hsel (VNumber 2)) as (Hsel1 & Hsel2 & _); [by_computation|].
  rewrite Hdata, Hdata', Hsel1, Hsel2. by_computation.
Defined.

(** ** [update] with a changed value *)

(** Once the comparator has reported a change the new value is stored,
    whatever the notifications that follow do. *)
Lemma update_changed_stores name data s :
  _compareValuesDiff data (current_value s name) = Ret true →
  (_data <$> store (state_of (update name data s)) !! name) = Some data.
Proof.
  intros Hdiff. unfold update.
  rewrite (bind_Ret_nil _ _ _ _ _ (_initDataStoreItem_run _ _ s)).
  destruct (init_item_current name s) as (item & Hitem & Hdata).
  rewrite <- Hdata in Hdiff. clear Hdata. revert Hitem.
  generalize (init_item name VUndefined s). clear s. intros s Hitem.
  erewrite bind_Ret_nil; [|by rewrite read_store_run, Hitem].
  erewrite bind_Ret_nil; [|by unfold lift; rewrite Hdiff].
  cbn [negb].
  erewrite bind_Ret_nil; [|reflexivity].
  set (s2 := {| store := <[name := {| _data := data; _selectors := _selectors item |}]>
                           (store s);
                listeners := listeners s; selectors := selectors s; heap := heap s |}).
  assert (Hgoal : ∀ s', rtc rstep s2 s' → (_data <$> store s' !! name) = Some data).
  { intros s' Hsteps. destruct (rsteps_frame _ _ Hsteps) as (-> & _ & _).
    unfold s2. cbn. by rewrite lookup_insert_eq. }
  rewrite bind_unfold, read_listeners_run.
  destruct (listeners s2 !! name) as [ls|]; [|by apply Hgoal].
  rewrite bind_unfold.
  destruct (notify_data_run ls data (_data item) s2) as (o1 & s3 & t1 & -> & Hsteps1 & _).
  destruct o1 as [[]|e]; [|by apply Hgoal].
  rewrite bind_unfold.
  destruct (notify_selectors_run (_selectors item) s3) as (o2 & s4 & t2 & -> & Hsteps2).
  destruct o2 as [[]|e]; cbn; apply Hgoal; by etrans.
Qed.

Lemma invoke_quiet h cb args s :
  calls_remove cb = [] → invoke h cb args s = (Ret tt, s, [Call h args]).
Proof. intros Hq. unfold invoke. by rewrite Hq. Qed.

Lemma notify_data_quiet ls data prevData s :
  (∀ h, h ∈ ls → quiet s h) →
  notify_data ls data prevData s = (Ret tt, s, (λ h, Call h [data; prevData]) <$> ls).
Proof.
  induction ls as [|h ls IH]; intros Hq; [done|].
  destruct (Hq h) as (l & Hl & Hobs); [by left|].
  unfold notify_data. cbn [forEach].
  erewrite bind_Ret.
  2:{ erewrite bind_Ret_nil; [|by rewrite deref_run, Hl]. by apply invoke_quiet. }
  unfold notify_data in IH. rewrite IH by (intros; apply Hq; by right). done.
Qed.

Lemma notify_selector_quiet selectorName ls v s :
  (∀ h, h ∈ ls → quiet s h) →
  selector_result s selectorName = Ret v →
  notify_selector selectorName ls s = (Ret tt, s, (λ h, Call h [v]) <$> ls).
Proof.
  intros Hq Hv. induction ls as [|h ls IH]; [done|].
  destruct (Hq h) as (l & Hl & Hobs); [by left|].
  unfold notify_selector. cbn [forEach].
  erewrite bind_Ret.
  2:{ erewrite bind_Ret_nil; [|by rewrite deref_run, Hl].
      erewrite bind_Ret_nil; [|by rewrite getSelector_run, Hv].
      by apply invoke_quiet. }
  unfold notify_selector in IH. rewrite IH by (intros; apply Hq; by right). done.
Qed.

Lemma notify_selectors_quiet (names : list string) s :
  (∀ n, n ∈ names →
     ∃ sel v, selectors s !! n = Some sel ∧ selector_result s n = Ret v
              ∧ ∀ h, h ∈ _listeners sel → quiet s h) →
  forEach names (λ selectorName,
    let! sel := read_selector selectorName in
    notify_selector selectorName (_listeners sel)) s
  = (Ret tt, s, names ≫= selector_calls s).
Proof.
  induction names as [|n names IH]; intros Hn; [done|].
  destruct (Hn n) as (sel & v & Hsel & Hv & Hq); [by left|].
  cbn [forEach]. erewrite bind_Ret.
  2:{ erewrite bind_Ret_nil; [|by rewrite read_selector_run, Hsel].
      by apply (notify_selector_quiet _ _ v). }
  rewrite IH by (intros; apply Hn; by right).
  cbn. unfold selector_calls at 2. by rewrite Hsel, Hv.
Qed.

Lemma handle_of_calls (args : list Value) (ls : list nat) :
  handle_of <$> ((λ h, Call h args) <$> ls) = ls.
Proof. induction ls as [|h ls IH]; [done|]. cbn. by rewrite IH. Qed.

Lemma handle_of_selector_calls (names : list string) s s' :
  selectors s' = selectors s →
  (∀ n, n ∈ names → ∃ v, selector_result s' n = Ret v) →
  handle_of <$> (names ≫= selector_calls s') = names ≫= selector_listeners s.
Proof.
  intros Hsels. induction names as [|n names IH]; intros Hv; [done|].
  rewrite !bind_cons, fmap_app, IH by (intros; apply Hv; by right).
  f_equal. destruct (Hv n) as [v Hn]; [by left|].
  unfold selector_calls, selector_listeners. rewrite Hn, Hsels.
  destruct (selectors s !! n); [|done]. apply handle_of_calls.
Qed.

(** Propagation of an update.  In a well-formed store, for a value that
    has an entry, a dependent-selector list whose selectors have entries
    and can be computed, and listeners whose callbacks only observe: when the
    comparator reports the new value different, [update] returns with the
    value replaced and nothing else changed, after calling first every
    listener of the name, in registration order, with the new and the
    previous value, and then, selector by selector in the order of the
    dependent-selector list, every listener of the selector, in
    registration order, with the value the selector has in the updated
    store.  No listener object is called twice. *)
Theorem update_notifies
    (s : DataStore) (name : string) (data : Value) (item : StoreItem) (ls : list nat) :
  wf s →
  store s !! name = Some item →
  listeners s !! name = Some ls →
  _compareValuesDiff data (_data item) = Ret true →
  (∀ h, h ∈ ls → quiet s h) →
  (∀ n, n ∈ _selectors item →
     ∃ sel v, selectors s !! n = Some sel
              ∧ selector_result
                  (put_item name {| _data := data; _selectors := _selectors item |} s) n
                = Ret v
              ∧ ∀ h, h ∈ _listeners sel → quiet s h) →
  update name data s
  = (Ret ReturnsThis,
     put_item name {| _data := data; _selectors := _selectors item |} s,
     ((λ h, Call h [data; _data item]) <$> ls)
     ++ (_selectors item
           ≫= selector_calls
                (put_item name {| _data := data; _selectors := _selectors item |} s)))
  ∧ handle_of <$> trace_of (update name data s)
    = ls ++ (_selectors item ≫= selector_listeners s)
  ∧ NoDup (ls ++ (_selectors item ≫= selector_listeners s)).
Proof.
  intros Hwf Hitem Hls Hdiff Hq Hsels.
  set (s' := put_item name {| _data := data; _selectors := _selectors item |} s) in *.
  assert (Hrun : update name data s
                 = (Ret ReturnsThis, s',
                    ((λ h, Call h [data; _data item]) <$> ls)
                    ++ (_selectors item ≫= selector_calls s'))).
  { unfold update.
    rewrite (bind_Ret_nil _ _ _ _ _ (_initDataStoreItem_run _ _ s)).
    assert (Hinit : init_item name VUndefined s = s).
    { unfold init_item. by rewrite bool_decide_eq_true_2 by eauto. }
    rewrite Hinit.
    erewrite bind_Ret_nil; [|by rewrite read_store_run, Hitem].
    erewrite bind_Ret_nil; [|by unfold lift; rewrite Hdiff].
    cbn [negb].
    erewrite bind_Ret_nil; [|reflexivity]. fold (put_item name
      {| _data := data; _selectors := _selectors item |} s). fold s'.
    erewrite bind_Ret_nil; [|by rewrite read_listeners_run; cbn; rewrite Hls].
    erewrite bind_Ret; [|by apply notify_data_quiet].
    erewrite bind_Ret.
    2:{ apply notify_selectors_quiet. intros n Hn.
        destruct (Hsels n Hn) as (sel & v & Hsel & Hv & Hqs). eauto. }
    cbn. by rewrite app_nil_r. }
  split; [done|]. split.
  - rewrite Hrun. cbn [trace_of snd]. rewrite fmap_app, handle_of_calls. f_equal.
    apply handle_of_selector_calls; [done|]. intros n Hn.
    destruct (Hsels n Hn) as (sel & v & _ & Hv & _). eauto.
  - apply NoDup_app. split; [by eapply wf_data_NoDup|]. split.
    + intros h Hh Hh'. apply list_elem_of_bind in Hh' as (n & Hin & Hn).
      unfold selector_listeners in Hin.
      destruct (selectors s !! n) as [sel|] eqn:Hsel; [|by apply elem_of_nil in Hin].
      destruct (wf_data_target _ Hwf _ _ _ Hls Hh) as (l1 & Hl1 & Ht1).
      destruct (wf_selector_target _ Hwf _ _ _ Hsel Hin) as (l2 & Hl2 & Ht2).
      congruence.
    + apply NoDup_bind.
      * intros n1 n2 h _ _ Hh1 Hh2. unfold selector_listeners in Hh1, Hh2.
        destruct (selectors s !! n1) as [sel1|] eqn:Hsel1; [|by apply elem_of_nil in Hh1].
        destruct (selectors s !! n2) as [sel2|] eqn:Hsel2; [|by apply elem_of_nil in Hh2].
        destruct (wf_selector_target _ Hwf _ _ _ Hsel1 Hh1) as (l1 & Hl1 & Ht1).
        destruct (wf_selector_target _ Hwf _ _ _ Hsel2 Hh2) as (l2 & Hl2 & Ht2).
        congruence.
      * intros n _. unfold selector_listeners.
        destruct (selectors s !! n) as [sel|] eqn:Hsel; [|constructor].
        by eapply wf_selector_NoDup.
      * by eapply wf_dependents_NoDup.
Qed.

Lemma quiet_store_double h : h ∈ [0; 1; 2] → quiet store_double h.
Proof.
  intros Hh. repeat (apply elem_of_cons in Hh as [-> | Hh]);
    [eexists; split; [by_computation|reflexivity]..|by apply elem_of_nil in Hh].
Qed.

(** In [store_double], [update(x, 5)] calls the two listeners of [x] with
    (5, 1) and then the listener of the selector [double] with 10. *)
Lemma update_notifies_witness :
  trace_of (update "x" (VNumber 5) store_double)
  = [Call 1 [VNumber 5; VNumber 1]; Call 2 [VNumber 5; VNumber 1]; Call 0 [VNumber 10]]
  ∧ (_data <$> store (state_of (update "x" (VNumber 5) store_double)) !! "x")
    = Some (VNumber 5).
Proof.
  destruct (update_notifies store_double "x" (VNumber 5)
              {| _data := VNumber 1; _selectors := ["selector::double"] |} [1; 2])
    as (Hrun & _ & _).
  - apply wf_store_double.
  - by_computation.
  - by_computation.
  - by_computation.
  - intros h Hh. apply quiet_store_double. by right.
  - intros n Hn. apply list_elem_of_singleton in Hn as ->.
    exists {| _transformer := double; _deps := ["x"]; _listeners := [0] |}, (VNumber 10).
    split; [by_computation|]. split; [by_computation|].
    intros h Hh. apply list_elem_of_singleton in Hh as ->.
    apply quiet_store_double. by left.
  - rewrite Hrun. by_computation.
Defined.

(** C1. [update] does not reach every listener of the dependent selectors
    once a [defineSelector] has failed on an unknown dependency.  In
    [store_dangling_then_t] the value [a] has an entry and listener object
    0; its dependent-selector list names [selector::s], left there by the
    failed [defineSelector] and without a selector entry, and then
    [selector::t], which has listener object 1.  [update(a, 2)] is taken as
    a change, stores 2 and calls listener object 0 with (2, 1); it then
    throws a [TypeError] at [selector::s], and listener object 1 of
    [selector::t], whose value is now 4, is not called. *)
Theorem update_stops_at_dangling_dependent :
  (_selectors <$> store store_dangling_then_t !! "a") = Some ["selector::s"; "selector::t"]
  ∧ selectors store_dangling_then_t !! "selector::s" = None
  ∧ (_listeners <$> selectors store_dangling_then_t !! "selector::t") = Some [1]
  ∧ listeners store_dangling_then_t !! "a" = Some [0]
  ∧ _compareValuesDiff (VNumber 2) (current_value store_dangling_then_t "a") = Ret true
  ∧ outcome_of (update "a" (VNumber 2) store_dangling_then_t) = Throw TypeError
  ∧ trace_of (update "a" (VNumber 2) store_dangling_then_t)
    = [Call 0 [VNumber 2; VNumber 1]]
  ∧ current_value (state_of (update "a" (VNumber 2) store_dangling_then_t)) "a" = VNumber 2
  ∧ selector_result (state_of (update "a" (VNumber 2) store_dangling_then_t)) "selector::t"
    = Ret (VNumber 4).
Proof. by_computation. Qed.

(** * Further properties of the store *)

(** ** Stores the operations can build *)

(** Whatever calls are made on a new store, in whatever order and whether
    they return or throw, the store stays well formed: every value has its
    listener array, no array holds a listener object twice or an object
    subscribed elsewhere, and no dependent-selector list names a selector
    twice. *)
Theorem reachable_wf (cs : list Command) : wf (run cs constructor).1.
Proof. apply wf_run, wf_constructor. Qed.

(** ** Reading never writes *)

(** [get] and [getSelector] leave the store as it is and call no
    listener, whether they return a value or throw. *)
Theorem get_is_pure (name : string) (s : DataStore) :
  state_of (get name s) = s ∧ trace_of (get name s) = []
  ∧ state_of (getSelector name s) = s ∧ trace_of (getSelector name s) = [].
Proof.
  assert (Hsel : state_of (getSelector name s) = s ∧ trace_of (getSelector name s) = [])
    by (by rewrite getSelector_run).
  split; [|split]; [| |done].
  - unfold get. destruct (Z.eqb _ _); [apply Hsel|].
    rewrite bind_unfold. cbn. by destruct (store s !! name).
  - unfold get. destruct (Z.eqb _ _); [apply Hsel|].
    rewrite bind_unfold. cbn. by destruct (store s !! name).
Qed.

(** ** What [remove] and the notification passes leave alone *)

Lemma same_definition_refl a : same_definition a a.
Proof. by destruct a. Qed.

Lemma same_definition_trans a b c :
  same_definition a b → same_definition b c → same_definition a c.
Proof.
  destruct a, b, c; cbn; try done. intros [-> ->] [-> ->]. done.
Qed.

Lemma rstep_selectors s s' n :
  rstep s s' → same_definition (selectors s !! n) (selectors s' !! n).
Proof.
  intros Hstep.
  destruct Hstep as [h0 l l' Hh Ht | m ls ls' Hm Hsub | m sel ls' Hm Hsub]; cbn;
    try apply same_definition_refl.
  destruct (decide (m = n)) as [<-|Hne].
  - by rewrite lookup_insert_eq, Hm.
  - rewrite lookup_insert_ne by done. apply same_definition_refl.
Qed.

Lemma rsteps_selectors s s' n :
  rtc rstep s s' → same_definition (selectors s !! n) (selectors s' !! n).
Proof.
  induction 1 as [|s s1 s2 Hstep _ IH]; [apply same_definition_refl|].
  eapply same_definition_trans; [by apply rstep_selectors|done].
Qed.

(** [remove()] never changes a stored value or a dependent-selector list,
    never changes the transformer or the dependencies of a selector, and
    calls no listener; so every selector computes after it what it
    computed before. *)
Theorem remove_keeps_values (h : nat) (s : DataStore) :
  store (state_of (remove h s)) = store s
  ∧ trace_of (remove h s) = []
  ∧ (∀ n, same_definition (selectors s !! n) (selectors (state_of (remove h s)) !! n))
  ∧ (∀ n, selector_result (state_of (remove h s)) n = selector_result s n).
Proof.
  destruct (remove_cases h s) as (o & s' & -> & Hsteps & _).
  destruct (rsteps_frame _ _ Hsteps) as (Hstore & _ & Hsel).
  cbn [state_of trace_of fst snd]. split; [done|]. split; [done|]. split; [|done].
  intros n. by apply rsteps_selectors.
Qed.

(** ** The shape of an [update] *)

Lemma update_shape name data s :
  ∃ s0, rtc rstep s0 (state_of (update name data s))
    ∧ (s0 = init_item name VUndefined s
       ∧ (∃ e, _compareValuesDiff data (current_value s name) = Throw e)
         ∨ (s0 = init_item name VUndefined s
            ∧ _compareValuesDiff data (current_value s name) = Ret false
            ∧ update name data s = (Ret ReturnsUndefined, s0, []))
       ∨ ∃ item, store (init_item name VUndefined s) !! name = Some item
                 ∧ _compareValuesDiff data (current_value s name) = Ret true
                 ∧ s0 = put_item name {| _data := data; _selectors := _selectors item |}
                          (init_item name VUndefined s)).
Proof.
  unfold update.
  rewrite (bind_Ret_nil _ _ _ _ _ (_initDataStoreItem_run _ _ s)).
  destruct (init_item_current name s) as (item & Hitem & Hdata).
  rewrite <- Hdata. clear Hdata. revert Hitem.
  generalize (init_item name VUndefined s). clear s. intros s Hitem.
  erewrite bind_Ret_nil; [|by rewrite read_store_run, Hitem].
  destruct (_compareValuesDiff data (_data item)) as [diff|e] eqn:Hdiff.
  2:{ exists s. split; [by rewrite (bind_Throw _ _ s e s [])|]. left. eauto. }
  erewrite bind_Ret_nil; [|reflexivity].
  destruct diff; cbn [negb].
  2:{ exists s. split; [done|]. right. left. done. }
  erewrite bind_Ret_nil; [|reflexivity].
  fold (put_item name {| _data := data; _selectors := _selectors item |} s).
  set (s2 := put_item name {| _data := data; _selectors := _selectors item |} s).
  exists s2. split; [|right; right; eauto].
  rewrite bind_unfold, read_listeners_run.
  destruct (listeners s2 !! name) as [ls|]; [|done].
  rewrite bind_unfold.
  destruct (notify_data_run ls data (_data item) s2) as (o1 & s3 & t1 & -> & Hsteps1 & _).
  destruct o1 as [[]|e]; [|done].
  rewrite bind_unfold.
  destruct (notify_selectors_run (_selectors item) s3) as (o2 & s4 & t2 & -> & Hsteps2).
  destruct o2 as [[]|e]; cbn; by etrans.
Qed.


Lemma init_item_selectors name value s :
  selectors (init_item name value s) = selectors s.
Proof. unfold init_item. by case_bool_decide. Qed.


Lemma update_selectors name data s n :
  same_definition (selectors s !! n) (selectors (state_of (update name data s)) !! n).
Proof.
  destruct (update_shape name data s) as (s0 & Hsteps & Hs0).
  assert (Hsels : selectors s0 = selectors s).
  { destruct Hs0 as [[-> _]|[(-> & _)|(item & _ & _ & ->)]]; apply init_item_selectors. }
  rewrite <- Hsels. by apply rsteps_selectors.
Qed.


(** ** Writing a value and reading it back *)




(** A value stored under a name that begins with the selector prefix
    cannot be read back: [update] creates and writes the entry, but [get]
    takes the name for a selector name and, no selector being defined
    under it, throws the undefined-selector error. *)
Theorem prefixed_value_unreadable (name : string) (data : Value) (s : DataStore) :
  indexOf name SELECTOR_PREFIX = 0%Z →
  selectors s !! name = None →
  _compareValuesDiff data (current_value s name) = Ret true →
  (_data <$> store (state_of (update name data s)) !! name) = Some data
  ∧ outcome_of (get name (state_of (update name data s)))
    = Throw (UndefinedSelectorError name).
Proof.
  intros Hsel Hnone Hdiff. split; [by apply update_changed_stores|].
  unfold get. rewrite Hsel. cbn [Z.eqb]. rewrite getSelector_run.
  cbn [outcome_of fst]. unfold selector_result.
  pose proof (update_selectors name data s name) as Hdefs. rewrite Hnone in Hdefs.
  by destruct (selectors (state_of (update name data s)) !! name).
Qed.

Lemma prefixed_value_unreadable_witness :
  (_data <$> store (state_of (update "selector::v" (VNumber 1) constructor)) !! "selector::v")
  = Some (VNumber 1)
  ∧ outcome_of (get "selector::v" (state_of (update "selector::v" (VNumber 1) constructor)))
    = Throw (UndefinedSelectorError "selector::v").
Proof.
  apply (prefixed_value_unreadable "selector::v" (VNumber 1) constructor); by_computation.
Defined.

(** ** More on the comparator *)

(** A function is different from everything, itself included: whenever
    one of the two values is a function the comparator reports a change. *)
Theorem function_always_different (a b : Value) :
  typeof a = TFunction ∨ typeof b = TFunction → _compareValuesDiff a b = Ret true.
Proof.
  intros [Hf|Hf].
  - destruct a; try discriminate. by destruct b.
  - destruct b; try discriminate. by destruct a.
Qed.

Lemma function_always_different_witness :
  _compareValuesDiff (VFunction 0) (VFunction 0) = Ret true
  ∧ _compareValuesDiff (VNumber 1) (VFunction 0) = Ret true.
Proof.
  split.
  - apply (function_always_different (VFunction 0) (VFunction 0)). left. reflexivity.
  - apply (function_always_different (VNumber 1) (VFunction 0)). right. reflexivity.
Defined.

Lemma compare_self_plain a :
  isObject a = false → typeof a ≠ TFunction → _compareValuesDiff a a = Ret false.
Proof.
  intros Ho Hf. unfold _compareValuesDiff, compareStrategies.
  cbn [List.find compareCase]. rewrite Ho. cbn [andb].
  rewrite (bool_decide_eq_true_2 (typeof a = typeof a)) by done. cbn [negb].
  rewrite (bool_decide_eq_false_2 (typeof a = TFunction)) by done.
  cbn [andb compareStrategy]. by rewrite bool_decide_eq_true_2.
Qed.

(** Comparing a value with itself (a value [JSON.stringify] is modelled
    on).  Without an own property named [hasOwnProperty], the comparator
    reports the value different from itself exactly when it is a function,
    or a plain object whose first property holds a function or a plain
    object, and reports every other such value, an object without
    properties included, unchanged against itself.  A plain object with an
    own property [hasOwnProperty] that is no function makes the comparison
    with itself throw a [TypeError]. *)
Theorem different_from_itself (a : Value) :
  json_plain a = true →
  (builtin_hasOwnProperty a →
     (_compareValuesDiff a a = Ret true
      ↔ typeof a = TFunction
        ∨ ∃ key v rest, a = VObject ((key, v) :: rest)
                        ∧ (typeof v = TFunction ∨ isObject v = true))
     ∧ (_compareValuesDiff a a = Ret false
        ↔ ¬ (typeof a = TFunction
             ∨ ∃ key v rest, a = VObject ((key, v) :: rest)
                             ∧ (typeof v = TFunction ∨ isObject v = true))))
  ∧ (∀ w, assoc_find "hasOwnProperty" (own_props a) = Some w →
          typeof w ≠ TFunction →
          _compareValuesDiff a a = Throw TypeError).
Proof.
  intros _. split.
  - intros Hbuiltin.
    assert (Hverdict : ∃ r : bool, _compareValuesDiff a a = Ret r ∧
              (r = true ↔ typeof a = TFunction
                          ∨ ∃ key v rest, a = VObject ((key, v) :: rest)
                                          ∧ (typeof v = TFunction ∨ isObject v = true))).
    { destruct a as [| |b|z|str|elems|props|f].
      1-6: (exists false; split; [by apply compare_self_plain|];
            split; [discriminate|intros [Hf|(k & v & rest & Ha & _)]; discriminate]).
      - rewrite _compareValuesDiff_objects. unfold isShallowDiff.
        rewrite Nat.eqb_refl. cbn [negb]. destruct props as [|[k v] rest].
        + exists false. split; [done|]. split; [discriminate|].
          intros [Hf|(k & v & rest & Ha & _)]; discriminate.
        + unfold Object_keys. cbn [own_props fmap list_fmap fst].
          pose proof (for_in_keys_first k v rest (rest.*1) (VObject ((k, v) :: rest))
                        Hbuiltin) as Hfirst.
          cbn [fmap list_fmap] in Hfirst. rewrite Hfirst. clear Hfirst.
          assert (Hv : get_prop (VObject ((k, v) :: rest)) k = v).
          { unfold get_prop. cbn [own_props]. by rewrite assoc_find_head. }
          rewrite Hv, first_key_condition. unfold nonOnbjectValueEquals.
          case_bool_decide as Hcond.
          * rewrite bool_decide_eq_true_2 by done. exists false. split; [done|].
            split; [discriminate|].
            intros [Hf|(k' & v' & rest' & [= <- <- <-] & Hv')]; [discriminate|].
            destruct Hcond as (Hnf & _ & Hno & _). destruct Hv'; congruence.
          * exists true. split; [done|]. split; [|done]. intros _. right.
            exists k, v, rest. split; [done|].
            destruct (decide (typeof v = TFunction)) as [|Hnf]; [by left|]. right.
            destruct (isObject v) eqn:Ho; [done|]. exfalso. by apply Hcond.
      - exists true. split; [done|]. split; [by left|done]. }
    destruct Hverdict as (r & -> & Hr). split.
    + rewrite <- Hr. split; [by intros [= ->]|by intros ->].
    + rewrite <- Hr. split; [intros [= ->]; discriminate|].
      intros Hne. by destruct r.
  - intros w Hw Hnf. destruct a as [| | | | | |props|]; try discriminate.
    cbn [own_props] in Hw.
    apply (_compareValuesDiff_shadowed props props w); [|done..].
    intros ->. discriminate.
Qed.

(** ** Defining a selector and reading it *)

Lemma dep_data_known s deps vals :
  dep_data s deps = Some vals → ∀ d, d ∈ deps → is_Some (store s !! d).
Proof.
  revert vals. induction deps as [|dep deps IH]; intros vals Hvals d Hd.
  - by apply elem_of_nil in Hd.
  - cbn [dep_data] in Hvals.
    destruct (store s !! dep) as [item|] eqn:Hitem; [|done].
    destruct (dep_data s deps) as [vs|]; [|done].
    apply elem_of_cons in Hd as [-> | Hd]; [by rewrite Hitem|]. by eapply IH.
Qed.

Lemma dep_data_ext s s' deps :
  (∀ d, d ∈ deps → (_data <$> store s' !! d) = (_data <$> store s !! d)) →
  dep_data s' deps = dep_data s deps.
Proof.
  induction deps as [|dep deps IH]; intros Hsame; [done|].
  cbn [dep_data]. rewrite IH by (intros; apply Hsame; by right).
  specialize (Hsame dep (ltac:(by left))).
  destruct (store s' !! dep), (store s !! dep); cbn in Hsame; try done.
  injection Hsame as Hd. by rewrite Hd.
Qed.

(** What the loop of [defineSelector] over the dependencies does to a
    store, whether it runs to the end or throws on the way. *)
Lemma register_dependents_frame selectorName deps s :
  ∃ o s1, forEach deps (register_dependent selectorName) s = (o, s1, [])
    ∧ listeners s1 = listeners s ∧ selectors s1 = selectors s ∧ heap s1 = heap s
    ∧ (∀ d item, store s !! d = Some item →
         ∃ extra, store s1 !! d = Some {| _data := _data item;
                                          _selectors := _selectors item ++ extra |})
    ∧ (∀ d, store s !! d = None → store s1 !! d = None)
    ∧ ((∀ d, d ∈ deps → is_Some (store s !! d)) → o = Ret tt).
Proof.
  revert s. induction deps as [|dep deps IH]; intros s.
  { exists (Ret tt), s. repeat split; try done.
    intros d [data sels] Hd. exists []. by rewrite app_nil_r. }
  cbn [forEach]. rewrite bind_unfold.
  unfold register_dependent at 1. rewrite bind_unfold, read_store_run.
  destruct (store s !! dep) as [item|] eqn:Hitem.
  2:{ exists (Throw TypeError), s. repeat split; try done.
      - intros d [data sels] Hd. exists []. by rewrite app_nil_r.
      - intros Hknown. destruct (Hknown dep) as [x Hx]; [by left|]. congruence. }
  set (s1 := if bool_decide (selectorName ∉ _selectors item)
             then put_item dep {| _data := _data item;
                                  _selectors := _selectors item ++ [selectorName] |} s
             else s).
  assert (Hstep : (if bool_decide (selectorName ∉ _selectors item)
                   then write_store dep {| _data := _data item;
                                           _selectors := _selectors item ++ [selectorName] |}
                   else ret tt) s = (Ret tt, s1, [])).
  { unfold s1. by case_bool_decide. }
  rewrite Hstep. cbn [app].
  assert (Hframe : listeners s1 = listeners s ∧ selectors s1 = selectors s
                   ∧ heap s1 = heap s
                   ∧ (∀ d it, store s !! d = Some it →
                        ∃ extra, store s1 !! d = Some {| _data := _data it;
                                                         _selectors := _selectors it ++ extra |})
                   ∧ (∀ d, store s !! d = None → store s1 !! d = None)).
  { unfold s1. case_bool_decide; cbn.
    - repeat split.
      + intros d it Hd. destruct (decide (dep = d)) as [<-|Hne].
        * rewrite lookup_insert_eq. exists [selectorName]. congruence.
        * rewrite lookup_insert_ne by done. exists []. rewrite app_nil_r, Hd.
          by destruct it.
      + intros d Hd. rewrite lookup_insert_ne; [done|]. intros <-. congruence.
    - repeat split; [|done]. intros d [data sels] Hd. exists []. by rewrite app_nil_r. }
  destruct Hframe as (Hls & Hsel & Hheap & Hkeep & Hnone).
  destruct (IH s1) as (o & s2 & -> & Hls2 & Hsel2 & Hheap2 & Hkeep2 & Hnone2 & Hret).
  exists o, s2. split; [done|]. split; [congruence|]. split; [congruence|].
  split; [congruence|]. split; [|split].
  - intros d it Hd. destruct (Hkeep d it Hd) as (extra1 & Hd1).
    destruct (Hkeep2 d _ Hd1) as (extra2 & Hd2). cbn in Hd2.
    exists (extra1 ++ extra2). by rewrite (assoc_L (++)).
  - intros d Hd. by apply Hnone2, Hnone.
  - intros Hknown. apply Hret. intros d Hd.
    destruct (Hknown d) as [it Hit]; [by right|].
    destruct (Hkeep d it Hit) as (extra & ->). eauto.
Qed.

(** After [defineSelector] over known values, [get] on the qualified name
    returns the transformer applied to the values of the dependencies, in
    the order they were declared. *)
Theorem defineSelector_then_get
    (name : string) (depNames : DepNames) (transformer : list Value → Value)
    (depData : list Value) (s : DataStore) :
  dep_data s (as_array depNames) = Some depData →
  get (qualify name) (state_of (defineSelector (VString name) depNames transformer s))
  = (Ret (transformer depData),
     state_of (defineSelector (VString name) depNames transformer s), []).
Proof.
  intros Hdata. unfold get. rewrite qualify_prefixed. cbn [Z.eqb].
  rewrite getSelector_run. f_equal. f_equal.
  unfold defineSelector. cbn zeta.
  destruct (register_dependents_frame (qualify name) (as_array depNames) s)
    as (o & s1 & Hrun & _ & _ & _ & Hkeep & _ & Hret).
  rewrite (Hret (dep_data_known _ _ _ Hdata)) in Hrun.
  rewrite (bind_Ret_nil _ _ _ _ _ Hrun), write_selector_run.
  unfold selector_result. cbn. rewrite lookup_insert_eq. cbn.
  rewrite (dep_data_ext s). { by rewrite Hdata. }
  intros d Hd. cbn. destruct (dep_data_known _ _ _ Hdata d Hd) as [it Hit].
  destruct (Hkeep d it Hit) as (extra & ->). by rewrite Hit.
Qed.

Lemma defineSelector_then_get_witness :
  get (qualify "twice") (state_of (defineSelector (VString "twice") (OneName "x") double
                                     store_object))
  = (Ret VUndefined,
     state_of (defineSelector (VString "twice") (OneName "x") double store_object), [])
  ∧ outcome_of (get (qualify "twice")
                  (state_of (defineSelector (VString "twice") (OneName "a") double store_a)))
    = Ret (VNumber 2).
Proof.
  split.
  - apply (defineSelector_then_get "twice" (OneName "x") double [obj_a1_b2] store_object).
    by_computation.
  - rewrite (defineSelector_then_get "twice" (OneName "a") double [VNumber 1] store_a)
      by by_computation.
    by_computation.
Defined.

(** [defineSelector] only ever adds to dependent-selector lists.  Whether
    it returns or throws, and whatever name and dependencies it is given,
    every value keeps its data and a dependent-selector list that begins
    with the list it had; no value is created, no listener array changes,
    and every selector other than the one being defined keeps its entry.
    So a selector defined again over other values stays in the list of the
    values it no longer depends on. *)
Theorem defineSelector_only_adds_dependents
    (selectorName : Value) (depNames : DepNames) (transformer : list Value → Value)
    (s : DataStore) :
  (∀ d item, store s !! d = Some item →
     ∃ extra, store (state_of (defineSelector selectorName depNames transformer s)) !! d
              = Some {| _data := _data item; _selectors := _selectors item ++ extra |})
  ∧ (∀ d, store s !! d = None →
       store (state_of (defineSelector selectorName depNames transformer s)) !! d = None)
  ∧ listeners (state_of (defineSelector selectorName depNames transformer s)) = listeners s
  ∧ (∀ n, (∀ m, selectorName = VString m → n ≠ qualify m) →
       selectors (state_of (defineSelector selectorName depNames transformer s)) !! n
       = selectors s !! n).
Proof.
  assert (Hid : ∀ d item, store s !! d = Some item →
            ∃ extra, store s !! d = Some {| _data := _data item;
                                            _selectors := _selectors item ++ extra |}).
  { intros d [data sels] Hd. exists []. by rewrite app_nil_r. }
  unfold defineSelector. destruct selectorName as [| | | |str| | |]; try by (cbn; eauto).
  cbn zeta.
  destruct (register_dependents_frame (qualify str) (as_array depNames) s)
    as (o & s1 & Hrun & Hls & Hsels & _ & Hkeep & Hnone & _).
  destruct o as [[]|e].
  - rewrite (bind_Ret_nil _ _ _ _ _ Hrun), write_selector_run. cbn.
    split; [done|]. split; [done|]. split; [done|].
    intros n Hne.
    rewrite lookup_insert_ne; [by rewrite Hsels|]. intros <-. by apply (Hne str).
  - rewrite (bind_Throw _ _ _ _ _ _ Hrun). cbn.
    split; [done|]. split; [done|]. split; [done|]. intros n _. by rewrite Hsels.
Qed.

(** The selector [s] of [store_two] depends on [x]; defined again over
    [y] it is still named in the dependent-selector list of [x]. *)
Lemma defineSelector_only_adds_dependents_witness :
  (_selectors <$> store store_two !! "x") = Some ["selector::s"]
  ∧ (∃ extra,
       store (state_of (defineSelector (VString "s") (OneName "y") double store_two)) !! "x"
       = Some {| _data := VNumber 1; _selectors := ["selector::s"] ++ extra |})
  ∧ store (state_of (defineSelector (VString "s") (OneName "y") double store_two)) !! "z"
    = None.
Proof.
  destruct (defineSelector_only_adds_dependents (VString "s") (OneName "y") double store_two)
    as (Hkeep & Hnone & _).
  split; [by_computation|]. split.
  - apply (Hkeep "x" {| _data := VNumber 1; _selectors := ["selector::s"] |}).
    by_computation.
  - apply Hnone. by_computation.
Defined.

(** ** A selector follows its dependencies *)

Lemma dep_data_after_write name item data s deps vals :
  store s !! name = Some item →
  dep_data s deps = Some vals →
  dep_data (put_item name {| _data := data; _selectors := _selectors item |} s) deps
  = Some ((λ d, if decide (d = name) then data else current_value s d) <$> deps).
Proof.
  intros Hitem. revert vals. induction deps as [|dep deps IH]; intros vals Hvals; [done|].
  cbn [dep_data] in *.
  destruct (store s !! dep) as [it|] eqn:Hdep; [|done].
  destruct (dep_data s deps) as [vs|]; [|done].
  rewrite (IH vs eq_refl). cbn [fmap list_fmap]. unfold current_value.
  cbn. destruct (decide (dep = name)) as [->|Hne].
  - by rewrite lookup_insert_eq.
  - rewrite lookup_insert_ne by done. by rewrite Hdep.
Qed.

(** Nothing is memoised.  When [update(name, data)] is taken as a change,
    [get] on a selector afterwards returns its transformer applied to the
    values its dependencies have then: [data] for [name] and the value
    held before for every other dependency. *)
Theorem selector_follows_update
    (name selectorName : string) (data : Value) (sel : Selector) (depData : list Value)
    (s : DataStore) :
  indexOf selectorName SELECTOR_PREFIX = 0%Z →
  selectors s !! selectorName = Some sel →
  dep_data s (_deps sel) = Some depData →
  _compareValuesDiff data (current_value s name) = Ret true →
  outcome_of (get selectorName (state_of (update name data s)))
  = Ret (_transformer sel
           ((λ d, if decide (d = name) then data else current_value s d) <$> _deps sel)).
Proof.
  intros Hprefix Hsel Hdata Hdiff. unfold get. rewrite Hprefix. cbn [Z.eqb].
  rewrite getSelector_run. cbn [outcome_of fst]. unfold selector_result.
  pose proof (update_selectors name data s selectorName) as Hdef. rewrite Hsel in Hdef.
  destruct (selectors (state_of (update name data s)) !! selectorName) as [sel'|];
    [|done].
  destruct Hdef as [<- <-].
  destruct (update_shape name data s) as (s0 & Hsteps & Hs0).
  destruct (rsteps_frame _ _ Hsteps) as (Hstore & _ & _).
  rewrite (dep_data_store s0) by done.
  destruct Hs0 as [[_ [e He]]|[(_ & Hsame & _)|(item & Hitem & _ & ->)]]; [congruence..|].
  assert (Hkeep : ∀ d, d ∈ _deps sel →
            store (init_item name VUndefined s) !! d = store s !! d).
  { intros d Hd. destruct (dep_data_known _ _ _ Hdata d Hd) as [it Hit].
    by destruct (init_item_store_some name VUndefined s d (ltac:(eauto))). }
  assert (Hdata' : dep_data (init_item name VUndefined s) (_deps sel) = Some depData).
  { rewrite (dep_data_ext s); [done|]. intros d Hd. by rewrite Hkeep. }
  rewrite (dep_data_after_write _ _ _ _ _ _ Hitem Hdata'). do 2 f_equal.
  apply list_fmap_ext. intros i d Hd. destruct (decide (d = name)); [done|].
  unfold current_value. rewrite Hkeep; [done|]. by eapply list_elem_of_lookup_2.
Qed.

Lemma selector_follows_update_witness :
  outcome_of (get "selector::double" (state_of (update "x" (VNumber 5) store_double)))
  = Ret (VNumber 10).
Proof.
  rewrite (selector_follows_update "x" "selector::double" (VNumber 5)
             {| _transformer := double; _deps := ["x"]; _listeners := [0] |}
             [VNumber 1] store_double); by_computation.
Defined.

(** ** Subscribing *)

(** [addSelectorListener] on a name under which no selector is defined
    throws a [TypeError]: nothing is subscribed and, even with
    [executeImmediately], the callback is not called; values, listener
    arrays and selectors are as before. *)
Theorem addSelectorListener_undefined
    (name : string) (onChange : Callback) (executeImmediately : bool) (s : DataStore) :
  selectors s !! qualify name = None →
  outcome_of (addSelectorListener name onChange executeImmediately s) = Throw TypeError
  ∧ trace_of (addSelectorListener name onChange executeImmediately s) = []
  ∧ store (state_of (addSelectorListener name onChange executeImmediately s)) = store s
  ∧ listeners (state_of (addSelectorListener name onChange executeImmediately s))
    = listeners s
  ∧ selectors (state_of (addSelectorListener name onChange executeImmediately s))
    = selectors s.
Proof.
  intros Hnone. unfold addSelectorListener.
  rewrite (bind_Ret_nil _ _ _ _ _ (alloc_run _ s)).
  erewrite bind_Throw; [|rewrite read_selector_run; cbn; by rewrite Hnone].
  done.
Qed.

Lemma addSelectorListener_undefined_witness :
  outcome_of (addSelectorListener "nothing" observer true store_double) = Throw TypeError
  ∧ trace_of (addSelectorListener "nothing" observer true store_double) = [].
Proof.
  destruct (addSelectorListener_undefined "nothing" observer true store_double)
    as (Hthrow & Htrace & _); [by_computation|]. by split.
Defined.

Lemma addDataListener_run name cb imm s :
  wf s →
  imm = false ∨ calls_remove cb = [] →
  addDataListener name cb imm s
  = (Ret (length (heap s)), with_data_listener name cb s,
     if imm then [Call (length (heap s)) [current_value s name]] else []).
Proof.
  intros Hwf Hobs. unfold addDataListener, with_data_listener. cbn zeta.
  rewrite (bind_Ret_nil _ _ _ _ _ (_initDataStoreItem_run _ _ s)).
  destruct (init_item_current name s) as (item & Hitem & Hdata).
  destruct (init_item_listeners name VUndefined s Hwf) as [ls Hls].
  rewrite <- (init_item_heap name VUndefined s), <- Hdata. clear Hdata.
  revert Hitem Hls. generalize (init_item name VUndefined s). clear s Hwf.
  intros s Hitem Hls.
  rewrite (bind_Ret_nil _ _ _ _ _ (alloc_run _ s)).
  erewrite bind_Ret_nil; [|by rewrite read_listeners_run; cbn; rewrite Hls].
  erewrite bind_Ret_nil; [|reflexivity]. rewrite Hls. cbn [default].
  destruct imm.
  - destruct Hobs as [|Hobs]; [done|].
    erewrite bind_Ret.
    2:{ erewrite bind_Ret_nil; [|by rewrite read_store_run; cbn; rewrite Hitem].
        by apply invoke_quiet. }
    done.
  - done.
Qed.



(** ** Subscribing and removing again *)

Lemma filter_not_removed_last ls h l s :
  all_live s ls → heap s !! h = Some l → _removed l = true →
  filter_not_removed (ls ++ [h]) s = (Ret ls, s, []).
Proof.
  intros Hlive Hl Hflag. induction ls as [|h' ls IH].
  - cbn [app filter_not_removed].
    erewrite bind_Ret_nil; [|by rewrite deref_run, Hl]. by rewrite Hflag.
  - destruct (Hlive h') as (l' & Hl' & Hflag'); [by left|].
    cbn [app filter_not_removed].
    erewrite bind_Ret_nil; [|by rewrite deref_run, Hl'].
    erewrite bind_Ret_nil; [|apply IH; intros x Hx; apply Hlive; by right].
    by rewrite Hflag'.
Qed.

(** Subscribing to a known value and removing the handle at once leaves
    the listener arrays, the values and the selectors exactly as they were
    before the subscription (given that no listener object of the array is
    one already removed): the array of the name is again the array it was,
    and [remove()] returns without calling anything. *)
Theorem subscribe_then_remove
    (name : string) (onChange : Callback) (executeImmediately : bool) (s : DataStore) :
  wf s →
  executeImmediately = false ∨ calls_remove onChange = [] →
  is_Some (store s !! name) →
  all_live s (default [] (listeners s !! name)) →
  outcome_of (remove (length (heap s))
                (state_of (addDataListener name onChange executeImmediately s))) = Ret tt
  ∧ trace_of (remove (length (heap s))
                (state_of (addDataListener name onChange executeImmediately s))) = []
  ∧ listeners (state_of (remove (length (heap s))
                 (state_of (addDataListener name onChange executeImmediately s))))
    = listeners s
  ∧ store (state_of (remove (length (heap s))
             (state_of (addDataListener name onChange executeImmediately s))))
    = store s
  ∧ selectors (state_of (remove (length (heap s))
                 (state_of (addDataListener name onChange executeImmediately s))))
    = selectors s.
Proof.
  intros Hwf Hobs Hknown Hlive. rewrite (addDataListener_run _ _ _ _ Hwf Hobs).
  cbn [state_of fst snd]. unfold with_data_listener. cbn zeta.
  assert (Hinit : init_item name VUndefined s = s).
  { unfold init_item. by rewrite bool_decide_eq_true_2. }
  rewrite Hinit. clear Hinit.
  destruct (wf_listeners _ Hwf name Hknown) as [ls Hls]. rewrite Hls in *.
  cbn [default from_option id] in *.
  set (l := {| onChange := onChange; _removed := false; target := DataTarget name |}).
  set (l' := {| onChange := onChange; _removed := true; target := DataTarget name |}).
  set (s1 := {| store := store s;
                listeners := <[name := ls ++ [length (heap s)]]> (listeners s);
                selectors := selectors s; heap := heap s ++ [l] |}).
  set (s2 := {| store := store s;
                listeners := <[name := ls ++ [length (heap s)]]> (listeners s);
                selectors := selectors s; heap := <[length (heap s) := l']> (heap s ++ [l]) |}).
  assert (Hnew : heap s2 !! length (heap s) = Some l').
  { cbn. apply list_lookup_insert_eq. rewrite length_app. cbn. lia. }
  assert (Hlive2 : all_live s2 ls).
  { intros h Hh. destruct (Hlive h Hh) as (l0 & Hl0 & Hflag). exists l0. split; [|done].
    cbn. pose proof (lookup_lt_Some _ _ _ Hl0).
    rewrite list_lookup_insert_ne by lia. by apply lookup_app_l_Some. }
  assert (Hrun : remove (length (heap s)) s1
                 = (Ret tt,
                    {| store := store s;
                       listeners := <[name := ls]> (listeners s2);
                       selectors := selectors s; heap := heap s2 |}, [])).
  { unfold remove.
    erewrite bind_Ret_nil; [|by rewrite deref_run; cbn; rewrite list_lookup_middle].
    erewrite bind_Ret_nil; [|reflexivity]. cbn [target l].
    fold l'. fold s2.
    erewrite bind_Ret_nil; [|by rewrite read_listeners_run; cbn; rewrite lookup_insert_eq].
    erewrite bind_Ret_nil; [|by eapply filter_not_removed_last]. done. }
  rewrite Hrun. cbn [outcome_of trace_of state_of fst snd listeners store selectors].
  split; [done|]. split; [done|]. split; [|done].
  cbn. rewrite insert_insert_eq. by apply insert_id.
Qed.

Lemma all_live_store_double : all_live store_double [1; 2].
Proof.
  intros h Hh. repeat (apply elem_of_cons in Hh as [-> | Hh]);
    [eexists; split; by_computation..|by apply elem_of_nil in Hh].
Qed.

Lemma subscribe_then_remove_witness :
  listeners (state_of (remove 3 (state_of (addDataListener "x" observer true store_double))))
  = listeners store_double
  ∧ listeners (state_of (addDataListener "x" observer true store_double)) !! "x"
    = Some [1; 2; 3].
Proof.
  split; [|by_computation].
  destruct (subscribe_then_remove "x" observer true store_double wf_store_double)
    as (_ & _ & Hls & _).
  - by right.
  - eexists. by_computation.
  - apply all_live_store_double.
  - exact Hls.
Defined.

(** ** [initDataStore] and reading back *)




Lemma init_items_known (data : list (string * Value)) s :
  (∀ entry, entry ∈ data → is_Some (store s !! entry.1)) →
  foldl (λ s entry, init_item entry.1 entry.2 s) s data = s.
Proof.
  induction data as [|[k v] data IH]; intros Hknown; [done|].
  cbn [foldl fst snd].
  assert (Hinit : init_item k v s = s).
  { unfold init_item. rewrite bool_decide_eq_true_2; [done|].
    apply (Hknown (k, v)). by left. }
  rewrite Hinit. apply IH. intros entry Hentry. apply Hknown. by right.
Qed.

Lemma init_items_all_known (data : list (string * Value)) s entry :
  entry ∈ data →
  is_Some (store (foldl (λ s entry, init_item entry.1 entry.2 s) s data) !! entry.1).
Proof.
  revert s. induction data as [|[k v] data IH]; intros s Hin; [by apply elem_of_nil in Hin|].
  cbn [foldl fst snd]. apply elem_of_cons in Hin as [-> | Hin]; [|by apply IH].
  cbn [fst].
  assert (Hk : is_Some (store (init_item k v s) !! k)).
  { unfold init_item. case_bool_decide; [done|]. cbn. rewrite lookup_insert_eq. eauto. }
  destruct (init_items_store_some data (init_item k v s) k Hk) as [Hst _].
  cbn zeta in Hst. by rewrite Hst.
Qed.

Lemma put_selectors_known (sels : list string) s :
  (∀ n, n ∈ sels → selectors s !! qualify n = Some placeholder) →
  foldl (λ s n, put_selector (qualify n) placeholder s) s sels = s.
Proof.
  induction sels as [|n sels IH]; intros Hknown; [done|].
  cbn [foldl].
  assert (Hput : put_selector (qualify n) placeholder s = s).
  { unfold put_selector. rewrite insert_id by (apply Hknown; by left). by destruct s. }
  rewrite Hput. apply IH. intros m Hm. apply Hknown. by right.
Qed.

(** Calling [initDataStore] a second time with the same argument changes
    nothing: the store after the second call is the store after the
    first. *)
Theorem initDataStore_twice
    (data : list (string * Value)) (sels : list string) (s : DataStore) :
  initDataStore data sels (state_of (initDataStore data sels s))
  = (Ret tt, state_of (initDataStore data sels s), []).
Proof.
  rewrite (initDataStore_run data sels s). cbn [state_of fst snd].
  rewrite initDataStore_run. f_equal. f_equal.
  set (s1 := foldl (λ s entry, init_item entry.1 entry.2 s) s data).
  set (s2 := foldl (λ s n, put_selector (qualify n) placeholder s) s1 sels).
  rewrite (init_items_known data s2).
  - apply put_selectors_known. intros n Hn. by apply put_selectors_lookup.
  - intros entry Hentry. unfold s2.
    destruct (put_selectors_frame sels s1) as (-> & _ & _).
    by apply init_items_all_known.
Qed.

(** ** An exception in the selector phase of [update] *)

Lemma forEach_app {A} (l1 l2 : list A) (f : A → M unit) s :
  forEach (l1 ++ l2) f s = (let! _ := forEach l1 f in forEach l2 f) s.
Proof.
  revert s. induction l1 as [|x l1 IH]; intros s.
  - cbn [app forEach]. by rewrite (bind_Ret_nil _ _ s tt s).
  - cbn [app forEach]. rewrite !bind_unfold.
    destruct (f x s) as [[[[]|e] s1] t1]; [|done].
    rewrite IH, bind_unfold.
    destruct (forEach l1 f s1) as [[[[]|e] s2] t2]; [|done].
    destruct (forEach l2 f s2) as [[o s3] t3]. by rewrite (assoc_L (++)).
Qed.

(** [update] is not atomic.  When a name in the dependent-selector list
    has no selector entry, [update] throws a [TypeError] on reaching it;
    by then the new value is stored, the listeners of the value have been
    called, and so have the listeners of the selectors that come before
    it in the list (the callbacks being observers). *)
Theorem update_throws_midway
    (s : DataStore) (name : string) (data : Value) (item : StoreItem) (ls : list nat)
    (before after : list string) (missing : string) :
  store s !! name = Some item →
  listeners s !! name = Some ls →
  _compareValuesDiff data (_data item) = Ret true →
  (∀ h, h ∈ ls → quiet s h) →
  _selectors item = before ++ missing :: after →
  selectors s !! missing = None →
  (∀ n, n ∈ before →
     ∃ sel v, selectors s !! n = Some sel
              ∧ selector_result
                  (put_item name {| _data := data; _selectors := _selectors item |} s) n
                = Ret v
              ∧ ∀ h, h ∈ _listeners sel → quiet s h) →
  update name data s
  = (Throw TypeError,
     put_item name {| _data := data; _selectors := _selectors item |} s,
     ((λ h, Call h [data; _data item]) <$> ls)
     ++ (before
           ≫= selector_calls
                (put_item name {| _data := data; _selectors := _selectors item |} s))).
Proof.
  intros Hitem Hls Hdiff Hq Hsplit Hnone Hbefore.
  set (s' := put_item name {| _data := data; _selectors := _selectors item |} s) in *.
  unfold update.
  rewrite (bind_Ret_nil _ _ _ _ _ (_initDataStoreItem_run _ _ s)).
  assert (Hinit : init_item name VUndefined s = s).
  { unfold init_item. by rewrite bool_decide_eq_true_2 by eauto. }
  rewrite Hinit.
  erewrite bind_Ret_nil; [|by rewrite read_store_run, Hitem].
  erewrite bind_Ret_nil; [|by unfold lift; rewrite Hdiff].
  cbn [negb].
  erewrite bind_Ret_nil; [|reflexivity].
  fold (put_item name {| _data := data; _selectors := _selectors item |} s). fold s'.
  erewrite bind_Ret_nil; [|by rewrite read_listeners_run; cbn; rewrite Hls].
  erewrite bind_Ret; [|by apply notify_data_quiet].
  assert (Hsels : forEach (_selectors item) (λ selectorName,
                    let! sel := read_selector selectorName in
                    notify_selector selectorName (_listeners sel)) s'
                  = (Throw TypeError, s', before ≫= selector_calls s')).
  { rewrite Hsplit, forEach_app.
    erewrite bind_Ret.
    2:{ apply notify_selectors_quiet. intros n Hn.
        destruct (Hbefore n Hn) as (sel & v & Hsel & Hv & Hqs). eauto. }
    cbn [forEach]. rewrite bind_unfold, bind_unfold, read_selector_run.
    cbn [selectors s' put_item]. rewrite Hnone. cbn. by rewrite app_nil_r. }
  by rewrite (bind_Throw _ _ _ _ _ _ Hsels).
Qed.

(** In [store_dangling] the dependent-selector list of [a] names a
    selector that does not exist: [update(a, 2)] stores 2, calls the
    listener of [a] and throws. *)
Lemma update_throws_midway_witness :
  outcome_of (update "a" (VNumber 2) store_dangling) = Throw TypeError
  ∧ trace_of (update "a" (VNumber 2) store_dangling) = [Call 0 [VNumber 2; VNumber 1]]
  ∧ (_data <$> store (state_of (update "a" (VNumber 2) store_dangling)) !! "a")
    = Some (VNumber 2).
Proof.
  rewrite (update_throws_midway store_dangling "a" (VNumber 2)
             {| _data := VNumber 1; _selectors := ["selector::s"] |} [0]
             [] [] "selector::s").
  - by_computation.
  - by_computation.
  - by_computation.
  - by_computation.
  - intros h Hh. apply list_elem_of_singleton in Hh as ->. eexists. split; by_computation.
  - reflexivity.
  - by_computation.
  - intros n Hn. by apply elem_of_nil in Hn.
Defined.

(** ** [bindState]: the state a component starts with *)

Lemma get_run_pure name s : get name s = (outcome_of (get name s), s, []).
Proof.
  unfold get. destruct (Z.eqb _ _); [by rewrite getSelector_run|].
  rewrite bind_unfold. cbn. by destruct (store s !! name).
Qed.

Lemma assoc_find_set_prop (accum : list (string * Value)) key v k :
  assoc_find k (set_prop accum key v)
  = if String.eqb key k then Some v else assoc_find k accum.
Proof.
  induction accum as [|[k0 x] accum IH]; [done|]. cbn [set_prop assoc_find].
  destruct (String.eqb_spec k0 key) as [->|Hne]; cbn [assoc_find].
  - by destruct (String.eqb_spec key k).
  - rewrite IH. destruct (String.eqb_spec k0 k) as [->|Hne']; [|done].
    by destruct (String.eqb_spec key k).
Qed.

Lemma assign_targets_run targets name accum s :
  ∃ o, assign_targets targets name accum s = (o, s, [])
    ∧ (∀ accum', o = Ret accum' →
         ∀ t v, assoc_find t accum' = Some v →
                (t ∈ targets ∧ outcome_of (get name s) = Ret v)
                ∨ assoc_find t accum = Some v)
    ∧ (targets ≠ [] → ∀ e, outcome_of (get name s) = Throw e → o = Throw e).
Proof.
  revert accum. induction targets as [|target targets IH]; intros accum.
  { exists (Ret accum). split; [done|]. split; [|done]. intros accum' [= <-]. eauto. }
  cbn [assign_targets]. rewrite bind_unfold, (get_run_pure name s).
  destruct (outcome_of (get name s)) as [v0|e0] eqn:Hget.
  2:{ exists (Throw e0). split; [done|]. split; [done|]. by intros _ e [= <-]. }
  destruct (IH (set_prop accum target v0)) as (o & -> & Hfound & _).
  exists o. split; [done|]. split; [|done].
  intros accum' Ho t v Hv. destruct (Hfound accum' Ho t v Hv) as [[Hin Hret]|Hprev].
  - left. split; [by right|done].
  - rewrite assoc_find_set_prop in Hprev. revert Hprev.
    destruct (String.eqb_spec target t) as [->|Hne]; intros Hprev; [|by right].
    left. split; [by left|]. cbn. congruence.
Qed.

Lemma bindState_reduce_run entries accum ls s :
  ∃ o, bindState_reduce entries accum ls s = (o, s, [])
    ∧ (∀ state ms, o = Ret (state, ms) →
         ms = ls ++ ((λ entry, {| dataStoreName := entry.1; listener := None |}) <$> entries)
         ∧ ∀ t v, assoc_find t state = Some v →
             (∃ entry, entry ∈ entries ∧ t ∈ targets_as_array entry.2
                       ∧ outcome_of (get entry.1 s) = Ret v)
             ∨ assoc_find t accum = Some v)
    ∧ (∀ entry e, entry ∈ entries → targets_as_array entry.2 ≠ [] →
         outcome_of (get entry.1 s) = Throw e → ∃ e', o = Throw e').
Proof.
  revert accum ls. induction entries as [|entry entries IH]; intros accum ls.
  { exists (Ret (accum, ls)). split; [done|]. split.
    - intros state ms [= <- <-]. rewrite app_nil_r. eauto.
    - intros entry e Hin. by apply elem_of_nil in Hin. }
  cbn [bindState_reduce]. rewrite bind_unfold.
  destruct (assign_targets_run (targets_as_array entry.2) entry.1 accum s)
    as (o1 & -> & Hfound1 & Hthrow1).
  destruct o1 as [accum1|e1].
  2:{ exists (Throw e1). split; [done|]. split; [done|]. eauto. }
  destruct (IH accum1 (ls ++ [{| dataStoreName := entry.1; listener := None |}]))
    as (o & -> & Hfound & Hthrow).
  exists o. split; [done|]. split.
  - intros state ms Ho. destruct (Hfound state ms Ho) as [-> Hst].
    split; [by rewrite <- (assoc_L (++))|].
    intros t v Hv. destruct (Hst t v Hv) as [(entry' & Hin & Ht & Hget)|Hprev].
    + left. exists entry'. split; [by right|done].
    + destruct (Hfound1 accum1 eq_refl t v Hprev) as [[Ht Hget]|Hacc]; [|by right].
      left. exists entry. split; [by left|done].
  - intros entry' e Hin Hne Hget. apply elem_of_cons in Hin as [-> | Hin]; [|eauto].
    by specialize (Hthrow1 Hne e Hget).
Qed.

(** [bindState] only reads.  It leaves the store as it is, subscribes
    nothing and calls nothing; when it returns, the objects it hands to
    [didMount] are one per mapping entry, in order and not yet mounted, and
    every value of the state it returns is what [get] returns for a store
    name mapped to that target.  When [get] throws for an entry that has a
    target, as it does for a value name never initialised, [bindState]
    throws. *)
Theorem bindState_reads_only (mapping : list (string * TargetNames)) (s : DataStore) :
  state_of (bindState mapping s) = s
  ∧ trace_of (bindState mapping s) = []
  ∧ (∀ state ms, outcome_of (bindState mapping s) = Ret (state, ms) →
       ms = (λ entry, {| dataStoreName := entry.1; listener := None |}) <$> mapping
       ∧ ∀ t v, assoc_find t state = Some v →
           ∃ entry, entry ∈ mapping ∧ t ∈ targets_as_array entry.2
                    ∧ outcome_of (get entry.1 s) = Ret v)
  ∧ (∀ entry e, entry ∈ mapping → targets_as_array entry.2 ≠ [] →
       outcome_of (get entry.1 s) = Throw e →
       ∃ e', outcome_of (bindState mapping s) = Throw e').
Proof.
  unfold bindState.
  destruct (bindState_reduce_run mapping [] [] s) as (o & -> & Hfound & Hthrow).
  cbn [state_of trace_of outcome_of fst snd].
  split; [done|]. split; [done|]. split; [|done].
  intros state ms Ho. destruct (Hfound state ms Ho) as [-> Hst]. split; [done|].
  intros t v Hv. by destruct (Hst t v Hv) as [?|?].
Qed.

Lemma bindState_reads_only_witness :
  outcome_of (bindState [("x", TargetArray ["a"; "b"]); ("selector::double", OneTarget "d")]
                store_double)
  = Ret ([("a", VNumber 1); ("b", VNumber 1); ("d", VNumber 2)],
         [ {| dataStoreName := "x"; listener := None |};
           {| dataStoreName := "selector::double"; listener := None |} ])
  ∧ ∃ e, outcome_of (bindState [("never", OneTarget "n")] store_double) = Throw e.
Proof.
  split; [by_computation|].
  destruct (bindState_reads_only [("never", OneTarget "n")] store_double)
    as (_ & _ & _ & Hthrow).
  apply (Hthrow ("never", OneTarget "n") (NotInitializedError "never")).
  - by left.
  - discriminate.
  - by_computation.
Defined.

(** ** Mounting and unmounting *)

Lemma addSelectorListener_run name cb sel v s :
  selectors s !! qualify name = Some sel →
  selector_result s (qualify name) = Ret v →
  calls_remove cb = [] →
  addSelectorListener name cb true s
  = (Ret (length (heap s)), with_selector_listener (qualify name) cb sel s,
     [Call (length (heap s)) [v]]).
Proof.
  intros Hsel Hv Hobs. unfold addSelectorListener, with_selector_listener.
  rewrite (bind_Ret_nil _ _ _ _ _ (alloc_run _ s)).
  erewrite bind_Ret_nil; [|by rewrite read_selector_run; cbn; rewrite Hsel].
  erewrite bind_Ret_nil; [|reflexivity].
  erewrite bind_Ret.
  2:{ erewrite bind_Ret_nil; [by apply invoke_quiet|].
      rewrite getSelector_run. f_equal. f_equal. rewrite <- Hv.
      unfold selector_result. cbn. rewrite lookup_insert_eq, Hsel. cbn.
      by erewrite dep_data_store. }
  done.
Qed.

Lemma wf_with_data_listener name cb s : wf s → wf (with_data_listener name cb s).
Proof.
  intros Hwf.
  assert (Hwf0 : wf (init_item name VUndefined s)) by (eapply wf_step; [apply step_init|done]).
  destruct (init_item_listeners name VUndefined s Hwf) as [ls Hls].
  unfold with_data_listener. cbn zeta. rewrite Hls. cbn [default from_option id].
  eapply wf_step; [|exact Hwf0]. by eapply step_subscribe_data.
Qed.

Lemma wf_with_selector_listener name cb sel s :
  wf s → selectors s !! name = Some sel → wf (with_selector_listener name cb sel s).
Proof.
  intros Hwf Hsel. eapply wf_step; [|exact Hwf]. by eapply step_subscribe_selector.
Qed.

Lemma init_item_current_value name s n :
  current_value (init_item name VUndefined s) n = current_value s n.
Proof.
  unfold current_value, init_item. case_bool_decide as Hname; [done|]. cbn.
  destruct (decide (name = n)) as [<-|Hne].
  - apply eq_None_not_Some in Hname. by rewrite lookup_insert_eq, Hname.
  - by rewrite lookup_insert_ne.
Qed.

Lemma selector_result_kept s s' n v :
  selector_result s n = Ret v →
  same_definition (selectors s !! n) (selectors s' !! n) →
  (∀ d, is_Some (store s !! d) → store s' !! d = store s !! d) →
  selector_result s' n = Ret v.
Proof.
  unfold selector_result. intros Hv Hdef Hstore.
  destruct (selectors s !! n) as [sel|]; [|done].
  destruct (selectors s' !! n) as [sel'|]; [|done]. destruct Hdef as [<- <-].
  destruct (dep_data s (_deps sel)) as [vals|] eqn:Hvals; [|done].
  rewrite (dep_data_ext s); [by rewrite Hvals|].
  intros d Hd. rewrite Hstore; [done|]. by eapply dep_data_known.
Qed.

Lemma onMount_run m s v :
  wf s →
  bound_value s (dataStoreName m) = Ret v →
  ∃ s1, onMount m s = (Ret (length (heap s)), s1, [Call (length (heap s)) [v]])
        ∧ wf s1
        ∧ length (heap s1) = S (length (heap s))
        ∧ ∀ n v', bound_value s n = Ret v' → bound_value s1 n = Ret v'.
Proof.
  intros Hwf Hv. unfold onMount, bound_value in *.
  destruct (Z.eqb_spec (indexOf (dataStoreName m) SELECTOR_PREFIX) 0) as [Hprefix|Hraw].
  - rewrite <- (qualify_fixed _ Hprefix) in Hv.
    destruct (selectors s !! qualify (dataStoreName m)) as [sel|] eqn:Hsel.
    2:{ unfold selector_result in Hv. by rewrite Hsel in Hv. }
    eexists. split; [by apply (addSelectorListener_run _ _ sel v)|].
    split; [by apply wf_with_selector_listener|].
    split; [cbn; rewrite length_app; cbn; lia|].
    intros n v' Hn. destruct (Z.eqb (indexOf n SELECTOR_PREFIX) 0); [|done].
    apply (selector_result_kept s); [done| |done]. cbn.
    destruct (decide (qualify (dataStoreName m) = n)) as [<-|Hne].
    + by rewrite lookup_insert_eq, Hsel.
    + rewrite lookup_insert_ne by done. apply same_definition_refl.
  - injection Hv as <-.
    eexists. split; [apply addDataListener_run; [done|by right]|].
    split; [by apply wf_with_data_listener|].
    split; [cbn; rewrite length_app, init_item_heap; cbn; lia|].
    intros n v' Hn. destruct (Z.eqb (indexOf n SELECTOR_PREFIX) 0).
    + apply (selector_result_kept s); [done| |].
      * cbn. rewrite init_item_selectors. apply same_definition_refl.
      * intros d Hd. cbn. by apply init_item_store_some.
    + unfold current_value in *. cbn. fold (current_value (init_item (dataStoreName m)
        VUndefined s) n). by rewrite init_item_current_value.
Qed.

(** Mounting in a well-formed store, every bound selector being defined
    and computable: [didMount] returns after subscribing one new listener
    object per entry, in order, and calling each once, at once, with the
    value the store had for its name when [didMount] began ([undefined]
    for a value name it had to create).  Each entry then holds its
    listener object. *)
Theorem didMount_calls_each_once (ms : list Mount) (s : DataStore) :
  wf s →
  (∀ m, m ∈ ms → ∃ v, bound_value s (dataStoreName m) = Ret v) →
  (didMount ms s).1
  = imap (λ i m, {| dataStoreName := dataStoreName m;
                    listener := Some (length (heap s) + i) |}) ms
  ∧ outcome_of (didMount ms s).2 = Ret tt
  ∧ trace_of (didMount ms s).2
    = imap (λ i m, Call (length (heap s) + i)
                     [value_or_undefined (bound_value s (dataStoreName m))]) ms
  ∧ wf (state_of (didMount ms s).2).
Proof.
  revert s. induction ms as [|m ms IH]; intros s Hwf Hbound; [done|].
  destruct (Hbound m) as [v Hv]; [by left|].
  destruct (onMount_run m s v Hwf Hv) as (s1 & Hrun & Hwf1 & Hlen & Hkeep).
  cbn [didMount]. rewrite Hrun.
  destruct (IH s1 Hwf1) as (Hms & Hret & Htrace & Hwf').
  { intros m' Hm'. destruct (Hbound m') as [v' Hv']; [by right|]. eauto. }
  destruct (didMount ms s1) as [rest' [[o s2] t2]].
  cbn [fst snd outcome_of state_of trace_of] in *.
  rewrite !imap_cons, Nat.add_0_r, Hv. cbn [value_or_undefined].
  split; [|split; [done|split; [|done]]].
  - f_equal. rewrite Hms. apply imap_ext. intros i m' _. cbn. do 2 f_equal. lia.
  - cbn. f_equal. rewrite Htrace. apply imap_ext. intros i m' Hm'. cbn.
    destruct (Hbound m') as [v' Hv']; [right; by eapply list_elem_of_lookup_2|].
    rewrite Hv', (Hkeep _ _ Hv'). f_equal. lia.
Qed.

Lemma didMount_calls_each_once_witness :
  (didMount [ {| dataStoreName := "x"; listener := None |};
              {| dataStoreName := "selector::double"; listener := None |};
              {| dataStoreName := "fresh"; listener := None |} ] store_double).1
  = [ {| dataStoreName := "x"; listener := Some 3 |};
      {| dataStoreName := "selector::double"; listener := Some 4 |};
      {| dataStoreName := "fresh"; listener := Some 5 |} ]
  ∧ trace_of (didMount [ {| dataStoreName := "x"; listener := None |};
                         {| dataStoreName := "selector::double"; listener := None |};
                         {| dataStoreName := "fresh"; listener := None |} ] store_double).2
    = [Call 3 [VNumber 1]; Call 4 [VNumber 2]; Call 5 [VUndefined]].
Proof.
  destruct (didMount_calls_each_once
              [ {| dataStoreName := "x"; listener := None |};
                {| dataStoreName := "selector::double"; listener := None |};
                {| dataStoreName := "fresh"; listener := None |} ] store_double
              wf_store_double) as (Hms & _ & Htrace & _).
  - intros m Hm. repeat (apply elem_of_cons in Hm as [-> | Hm]);
      [eexists; by_computation..|by apply elem_of_nil in Hm].
  - rewrite Hms, Htrace. by_computation.
Defined.

Lemma onUnmount_dropped m h s :
  wf s → listener m = Some h → outcome_of (onUnmount m s) = Ret tt →
  dropped h (state_of (onUnmount m s)).
Proof.
  intros Hwf Hm. unfold onUnmount. rewrite Hm. by apply remove_dropped.
Qed.

Lemma onUnmount_steps m s :
  ∃ o s', onUnmount m s = (o, s', []) ∧ rtc rstep s s'.
Proof.
  unfold onUnmount. destruct (listener m) as [h|]; [|by exists (Ret tt), s].
  destruct (remove_cases h s) as (o & s' & Hrun & Hsteps & _). eauto.
Qed.

Lemma dropped_rsteps h s s' : rtc rstep s s' → dropped h s → dropped h s'.
Proof.
  induction 1 as [|s s1 s2 Hstep _ IH]; [done|]. intros Hdrop. apply IH.
  eapply dropped_step; [by apply step_remove|done].
Qed.

Lemma willUnmount_steps ms s :
  ∃ o s', willUnmount ms s = (o, s', []) ∧ rtc rstep s s'.
Proof.
  unfold willUnmount. revert s. induction ms as [|m ms IH]; intros s;
    [by exists (Ret tt), s|].
  cbn [forEach]. rewrite bind_unfold.
  destruct (onUnmount_steps m s) as (o1 & s1 & -> & Hsteps1).
  destruct o1 as [[]|e]; [|eauto].
  destruct (IH s1) as (o & s' & -> & Hsteps). exists o, s'. split; [done|]. by etrans.
Qed.

(** Once [willUnmount] has returned, no later call on the store,
    [update] included, calls a listener the component had mounted: each
    listener object held by an entry is in no array any more.
    [willUnmount] itself calls nothing and changes no value. *)
Theorem willUnmount_stops_notifications (ms : list Mount) (s : DataStore) :
  wf s →
  outcome_of (willUnmount ms s) = Ret tt →
  trace_of (willUnmount ms s) = []
  ∧ store (state_of (willUnmount ms s)) = store s
  ∧ ∀ m h, m ∈ ms → listener m = Some h →
      dropped h (state_of (willUnmount ms s))
      ∧ ∀ cs, never_calls h (run cs (state_of (willUnmount ms s))).2.
Proof.
  intros Hwf Hret.
  destruct (willUnmount_steps ms s) as (o & s' & Hrun & Hsteps).
  destruct (rsteps_frame _ _ Hsteps) as (Hstore & _ & _).
  split; [by rewrite Hrun|]. split; [by rewrite Hrun|]. clear o s' Hrun Hsteps Hstore.
  assert (Hdrop : ∀ m h, m ∈ ms → listener m = Some h →
                    dropped h (state_of (willUnmount ms s))).
  { revert s Hwf Hret. unfold willUnmount.
    induction ms as [|m0 ms IH]; intros s Hwf Hret m h Hin Hm;
      [by apply elem_of_nil in Hin|].
    cbn [forEach] in *. rewrite bind_unfold in *.
    destruct (onUnmount_steps m0 s) as (o1 & s1 & Hrun1 & Hsteps1).
    pose proof (λ h, onUnmount_dropped m0 h s) as Hdrop0. rewrite Hrun1 in *.
    destruct o1 as [[]|e]; [|done].
    pose proof (wf_steps _ _ (rsteps_steps _ _ Hsteps1) Hwf) as Hwf1.
    destruct (willUnmount_steps ms s1) as (o & s' & Hrun & Hsteps).
    unfold willUnmount in Hrun.
    apply elem_of_cons in Hin as [-> | Hin].
    - specialize (Hdrop0 h Hwf Hm eq_refl). cbn in Hdrop0.
      rewrite Hrun. cbn. by eapply dropped_rsteps.
    - assert (Hret' : outcome_of (forEach ms onUnmount s1) = Ret tt).
      { rewrite Hrun in *. by destruct o. }
      specialize (IH s1 Hwf1 Hret' m h Hin Hm).
      rewrite Hrun in *. exact IH. }
  intros m h Hin Hm. split; [by eapply Hdrop|].
  intros cs. apply dropped_never_called. by eapply Hdrop.
Qed.

Lemma willUnmount_stops_notifications_witness :
  listeners store_mounted !! "x" = Some [1; 2; 3]
  ∧ never_calls 3
      (run [CUpdate "x" (VNumber 5)]
         (state_of (willUnmount [ {| dataStoreName := "x"; listener := Some 3 |};
                                  {| dataStoreName := "selector::double";
                                     listener := Some 4 |} ] store_mounted))).2
  ∧ (run [CUpdate "x" (VNumber 5)]
       (state_of (willUnmount [ {| dataStoreName := "x"; listener := Some 3 |};
                                {| dataStoreName := "selector::double";
                                   listener := Some 4 |} ] store_mounted))).2
    = [Call 1 [VNumber 5; VNumber 1]; Call 2 [VNumber 5; VNumber 1]; Call 0 [VNumber 10]].
Proof.
  split; [by_computation|]. split; [|by_computation].
  destruct (willUnmount_stops_notifications
              [ {| dataStoreName := "x"; listener := Some 3 |};
                {| dataStoreName := "selector::double"; listener := Some 4 |} ]
              store_mounted) as (_ & _ & Hstop).
  - apply wf_run, wf_constructor.
  - by_computation.
  - destruct (Hstop {| dataStoreName := "x"; listener := Some 3 |} 3) as [_ Hnever];
      [by left|reflexivity|]. apply Hnever.
Defined.


Lemma different_from_itself_witness :
  _compareValuesDiff (VObject [("a", VObject [])]) (VObject [("a", VObject [])]) = Ret true
  ∧ _compareValuesDiff (VArray [VObject []]) (VArray [VObject []]) = Ret false
  ∧ _compareValuesDiff (obj_shadow 1) (obj_shadow 1) = Throw TypeError.
Proof.
  split; [|split].
  - destruct (different_from_itself (VObject [("a", VObject [])])) as [Hplain _];
      [reflexivity|].
    destruct Hplain as [Hdiff _]; [reflexivity|]. apply Hdiff.
    right. exists "a", (VObject []), []. split; [reflexivity|]. right. reflexivity.
  - destruct (different_from_itself (VArray [VObject []])) as [Hplain _];
      [reflexivity|].
    destruct Hplain as [_ Hsame]; [reflexivity|]. apply Hsame.
    intros [Hf|(k & v & rest & Ha & _)]; discriminate.
  - destruct (different_from_itself (obj_shadow 1)) as [_ Hthrow]; [reflexivity|].
    apply (Hthrow (VNumber 1)); [reflexivity|discriminate].
Defined.

(** ** Removing twice *)

Lemma filter_not_removed_live ls ls' s :
  filter_not_removed ls s = (Ret ls', s, []) → all_live s ls'.
Proof.
  revert ls'. induction ls as [|h ls IH]; intros ls'.
  - intros [= <-] h Hh. by apply elem_of_nil in Hh.
  - cbn [filter_not_removed]. rewrite bind_unfold, deref_run.
    destruct (heap s !! h) as [l|] eqn:Hl; [|done].
    rewrite bind_unfold.
    destruct (filter_not_removed_run ls s) as (o & Hrun & _). rewrite Hrun.
    destruct o as [rest|e]; [|done]. cbn. intros [= <-].
    specialize (IH rest Hrun).
    destruct (_removed l) eqn:Hflag; cbn [negb]; [done|].
    intros h' Hh'. apply elem_of_cons in Hh' as [-> | Hh']; eauto.
Qed.

Lemma filter_not_removed_id ls s :
  all_live s ls → filter_not_removed ls s = (Ret ls, s, []).
Proof.
  intros Hlive. induction ls as [|h ls IH]; [done|].
  destruct (Hlive h) as (l & Hl & Hflag); [by left|].
  cbn [filter_not_removed].
  erewrite bind_Ret_nil; [|by rewrite deref_run, Hl].
  erewrite bind_Ret_nil; [|apply IH; intros x Hx; apply Hlive; by right].
  by rewrite Hflag.
Qed.

Lemma remove_data_run h l n ls ls' s :
  heap s !! h = Some l → target l = DataTarget n → listeners s !! n = Some ls →
  filter_not_removed ls (flagged h l s) = (Ret ls', flagged h l s, []) →
  remove h s
  = (Ret tt,
     {| store := store s; listeners := <[n := ls']> (listeners s);
        selectors := selectors s; heap := heap (flagged h l s) |}, []).
Proof.
  intros Hl Ht Hls Hfilter. unfold remove.
  erewrite bind_Ret_nil; [|by rewrite deref_run, Hl].
  erewrite bind_Ret_nil; [|reflexivity].
  fold (flag l). fold (flagged h l s). rewrite Ht.
  erewrite bind_Ret_nil; [|by rewrite read_listeners_run; cbn; rewrite Hls].
  erewrite bind_Ret_nil; [|exact Hfilter]. done.
Qed.

Lemma remove_selector_run h l n sel ls' s :
  heap s !! h = Some l → target l = SelectorTarget n → selectors s !! n = Some sel →
  filter_not_removed (_listeners sel) (flagged h l s) = (Ret ls', flagged h l s, []) →
  remove h s
  = (Ret tt,
     {| store := store s; listeners := listeners s;
        selectors := <[n := {| _transformer := _transformer sel; _deps := _deps sel;
                               _listeners := ls' |}]> (selectors s);
        heap := heap (flagged h l s) |}, []).
Proof.
  intros Hl Ht Hsel Hfilter. unfold remove.
  erewrite bind_Ret_nil; [|by rewrite deref_run, Hl].
  erewrite bind_Ret_nil; [|reflexivity].
  fold (flag l). fold (flagged h l s). rewrite Ht.
  erewrite bind_Ret_nil; [|by rewrite read_selector_run; cbn; rewrite Hsel].
  erewrite bind_Ret_nil; [|exact Hfilter].
  erewrite bind_Ret_nil; [|by rewrite read_selector_run; cbn; rewrite Hsel]. done.
Qed.

Lemma remove_returns h s :
  outcome_of (remove h s) = Ret tt →
  ∃ l, heap s !! h = Some l
    ∧ ((∃ n ls ls', target l = DataTarget n ∧ listeners s !! n = Some ls
          ∧ filter_not_removed ls (flagged h l s) = (Ret ls', flagged h l s, []))
       ∨ (∃ n sel ls', target l = SelectorTarget n ∧ selectors s !! n = Some sel
            ∧ filter_not_removed (_listeners sel) (flagged h l s)
              = (Ret ls', flagged h l s, []))).
Proof.
  unfold remove. rewrite bind_unfold, deref_run.
  destruct (heap s !! h) as [l|] eqn:Hl; [|done].
  rewrite (bind_Ret_nil _ _ s tt (flagged h l s)) by done.
  intros Hret. exists l. split; [done|]. destruct (target l) as [n|n] eqn:Ht.
  - left. rewrite bind_unfold, read_listeners_run in Hret. cbn [listeners flagged] in Hret.
    destruct (listeners s !! n) as [ls|] eqn:Hls; [|done].
    rewrite bind_unfold in Hret.
    destruct (filter_not_removed_run ls (flagged h l s)) as (o & Hrun & _).
    rewrite Hrun in Hret. destruct o as [ls'|e]; [|done]. by exists n, ls, ls'.
  - right. rewrite bind_unfold, read_selector_run in Hret. cbn [selectors flagged] in Hret.
    destruct (selectors s !! n) as [sel|] eqn:Hsel; [|done].
    rewrite bind_unfold in Hret.
    destruct (filter_not_removed_run (_listeners sel) (flagged h l s)) as (o & Hrun & _).
    rewrite Hrun in Hret. destruct o as [ls'|e]; [|done]. by exists n, sel, ls'.
Qed.

Lemma flagged_again h l s s2 :
  heap s !! h = Some l →
  store s2 = store s → heap s2 = heap (flagged h l s) →
  flagged h (flag l) s2 = s2.
Proof.
  intros Hl Hst Hheap. destruct s2 as [st2 ls2 sels2 hp2]. unfold flagged. cbn in *.
  f_equal. rewrite Hheap. apply list_insert_insert_eq.
Qed.

(** Calling [remove()] a second time on a handle changes nothing: when
    the first call returned, the second returns too, calls nothing, and
    leaves the store exactly as the first call left it. *)
Theorem remove_twice (h : nat) (s : DataStore) :
  outcome_of (remove h s) = Ret tt →
  remove h (state_of (remove h s)) = (Ret tt, state_of (remove h s), []).
Proof.
  intros Hret. destruct (remove_returns h s Hret) as (l & Hl & Hcases).
  assert (Hl1 : heap (flagged h l s) !! h = Some (flag l)).
  { cbn. apply list_lookup_insert_eq. by eapply lookup_lt_Some. }
  destruct Hcases as [(n & ls & ls' & Ht & Hls & Hfilter)|(n & sel & ls' & Ht & Hsel & Hfilter)].
  - rewrite (remove_data_run _ _ _ _ _ _ Hl Ht Hls Hfilter). cbn [state_of fst snd].
    set (s2 := {| store := store s; listeners := <[n := ls']> (listeners s);
                  selectors := selectors s; heap := heap (flagged h l s) |}).
    pose proof (flagged_again h l s s2 Hl eq_refl eq_refl) as Hsame.
    rewrite (remove_data_run h (flag l) n ls' ls' s2); [| done | done | |].
    + rewrite Hsame. unfold s2. cbn. by rewrite insert_insert_eq.
    + cbn. apply lookup_insert_eq.
    + rewrite Hsame. apply filter_not_removed_id.
      intros h' Hh'. by apply (filter_not_removed_live _ _ _ Hfilter).
  - rewrite (remove_selector_run _ _ _ _ _ _ Hl Ht Hsel Hfilter). cbn [state_of fst snd].
    set (sel' := {| _transformer := _transformer sel; _deps := _deps sel;
                    _listeners := ls' |}).
    set (s2 := {| store := store s; listeners := listeners s;
                  selectors := <[n := sel']> (selectors s);
                  heap := heap (flagged h l s) |}).
    pose proof (flagged_again h l s s2 Hl eq_refl eq_refl) as Hsame.
    rewrite (remove_selector_run h (flag l) n sel' ls' s2); [| done | done | |].
    + rewrite Hsame. unfold s2. cbn. by rewrite insert_insert_eq.
    + cbn. apply lookup_insert_eq.
    + rewrite Hsame. apply filter_not_removed_id.
      intros h' Hh'. by apply (filter_not_removed_live _ _ _ Hfilter).
Qed.

Lemma remove_twice_witness :
  remove 1 (state_of (remove 1 store_double))
  = (Ret tt, state_of (remove 1 store_double), []).
Proof.
  apply (remove_twice 1 store_double). by_computation.
Defined.
